(** * SfDeploymentTracker: the story cache, the change log and the query view

    A shallow embedding of [my-app/components/deployment-tracker.tsx]:
    the record types of the file, the [user_stories] table it talks to,
    the handlers of [Component] and [ChangeForm] that read and write it,
    and the two derived values [filteredStories] and [currentStories].

    Conventions.
    - A JavaScript string is a [string]; a character stands for one code
      unit, and [includes] compares code units, so it is case-sensitive.
    - Page numbers, indices and lengths are integers ([Z]); the source only
      ever produces integral values for them.
    - An [async] handler is a state transformer over a [Session]: the remote
      table and the React state of [Component].  A handler run through
      [Async] runs to completion before the next one starts; the suspension
      points of [addChange] are made explicit in [AddChangeTask].
    - Rendering is kept to what decides which stories are shown.  The timer
      that clears [errorMessage] after five seconds is left out. *)

From Stdlib Require Import List String Ascii Bool ZArith NArith Lia QArith Qround.
From Stdlib Require Import DecimalString DecimalN.
Import ListNotations.

Local Open Scope string_scope.
Local Open Scope list_scope.

(** ** Record types (lines 19-71 of the source) *)

Inductive ChangeType := Field | LWC | Profile | Permission.

Module FieldChange.
Record t := mk
  { date : string; apiName : string; label : string; fieldType : string;
    note : string }.
End FieldChange.

Module LWCChange.
Record t := mk
  { date : string; componentName : string; fileType : string;
    code : option string; note : string }.
End LWCChange.

Module ProfileChange.
Record t := mk { date : string; profile : string; note : string }.
End ProfileChange.

Module Access.
Record t := mk { read : bool; write : bool }.
End Access.

Module PermissionChange.
Record t := mk
  { date : string; permissionSet : string; permission : string;
    access : Access.t; note : string }.
End PermissionChange.

(** [Change['details']]: the union of the four detail records. *)
Inductive Details :=
| OfField (d : FieldChange.t)
| OfLWC (d : LWCChange.t)
| OfProfile (d : ProfileChange.t)
| OfPermission (d : PermissionChange.t).

Module Change.
Record t := mk { id : string; type : ChangeType; details : Details }.
End Change.

Module UserStory.
Record t := mk
  { id : string; userId : string; number : string; title : string;
    description : string; date : string; changes : list Change.t }.

(** [{ ...story, changes: updatedChanges }] *)
Definition withChanges (story : t) (updatedChanges : list Change.t) : t :=
  mk (id story) (userId story) (number story) (title story)
     (description story) (date story) updatedChanges.
End UserStory.

Module User.
Record t := mk { id : string; email : option string }.
End User.

(** ** JavaScript primitives used by the file *)

(** A string in a condition: only the empty string is falsy. *)
Definition truthy (s : string) : bool :=
  match s with EmptyString => false | String _ _ => true end.

(** [String.prototype.includes]: [q] occurs in [s] at some position. *)
Fixpoint includes (s q : string) : bool :=
  prefix q s ||
  match s with
  | EmptyString => false
  | String _ rest => includes rest q
  end.

(** The relative index of [Array.prototype.slice]: a negative argument
    counts from the end, and both ends are clamped to the array. *)
Definition relativeIndex (len k : Z) : Z :=
  if (k <? 0)%Z then Z.max (len + k) 0 else Z.min k len.

(** [Array.prototype.slice(start, end)] *)
Definition slice {A : Type} (l : list A) (start finish : Z) : list A :=
  let len := Z.of_nat (List.length l) in
  let k := relativeIndex len start in
  let final := relativeIndex len finish in
  firstn (Z.to_nat (Z.max (final - k) 0)) (skipn (Z.to_nat k) l).

(** [n.toString()] of a non-negative integer: its decimal digits.  It is
    applied to [Date.now()], a count of milliseconds far below [10^21],
    where JavaScript would switch to the exponent notation. *)
Definition toString (n : N) : string :=
  NilEmpty.string_of_uint (N.to_uint n).

(** [Math.ceil(a / b)] on integers, the quotient taken as a rational.  For
    a length [a] and a page size [b] the quotient the source computes is an
    integer exactly when [b] divides [a], and lies between the same two
    integers as the exact quotient otherwise, so the two ceilings agree. *)
Definition ceilDiv (a b : Z) : Z := Qceiling (inject_Z a / inject_Z b).

(** ** The remote side: the [user_stories] table behind the Supabase client

    A request either fails in transport or in the store (the client then
    returns [{ error }]), or it is applied to the table.  [faults] is the
    outcome of the coming requests, in order: [Some message] makes the next
    request fail with that message; an exhausted list means no failure.
    [log] records the requests issued, [now] is the reading of [Date.now()]. *)

Inductive Request :=
| SelectStories (userId : string)
| SelectChanges (id : string)
| UpdateChanges (id : string) (changes : list Change.t)
| DeleteStory (id : string)
| SignOut.

Record World := mkWorld
  { table : list UserStory.t;
    faults : list (option string);
    now : N;
    log : list Request }.

Inductive Response (A : Type) :=
| Data (data : A)
| Error (message : string).
Arguments Data {A} data.
Arguments Error {A} message.

Definition isError {A : Type} (r : Response A) : bool :=
  match r with Data _ => false | Error _ => true end.

(** Sends one request: logs it and takes its outcome from [faults]. *)
Definition transport (r : Request) (w : World) : option string * World :=
  match faults w with
  | [] => (None, mkWorld (table w) [] (now w) (log w ++ [r]))
  | f :: rest => (f, mkWorld (table w) rest (now w) (log w ++ [r]))
  end.

Definition hasId (id : string) (story : UserStory.t) : bool :=
  UserStory.id story =? id.

(** [.from('user_stories').select('*').eq('userId', userId)] *)
Definition selectStories (userId : string) (w : World)
  : Response (list UserStory.t) * World :=
  let (f, w') := transport (SelectStories userId) w in
  match f with
  | Some message => (Error message, w')
  | None =>
      (Data (filter (fun story => UserStory.userId story =? userId) (table w')), w')
  end.

(** [.select('changes').eq('id', id).single()]: an error unless exactly one
    row matches. *)
Definition selectChanges (id : string) (w : World)
  : Response (list Change.t) * World :=
  let (f, w') := transport (SelectChanges id) w in
  match f with
  | Some message => (Error message, w')
  | None =>
      match filter (hasId id) (table w') with
      | [story] => (Data (UserStory.changes story), w')
      | _ => (Error "JSON object requested, multiple (or no) rows returned", w')
      end
  end.

(** [.update({ changes }).eq('id', id)]: overwrites the field in every
    matching row; matching no row is not an error. *)
Definition updateChanges (id : string) (changes : list Change.t) (w : World)
  : Response unit * World :=
  let (f, w') := transport (UpdateChanges id changes) w in
  match f with
  | Some message => (Error message, w')
  | None =>
      (Data tt,
       mkWorld
         (map (fun story =>
                 if hasId id story then UserStory.withChanges story changes
                 else story) (table w'))
         (faults w') (now w') (log w'))
  end.

(** [.delete().eq('id', id)]: removes the matching rows; matching no row is
    not an error. *)
Definition deleteStory (id : string) (w : World) : Response unit * World :=
  let (f, w') := transport (DeleteStory id) w in
  match f with
  | Some message => (Error message, w')
  | None =>
      (Data tt,
       mkWorld (filter (fun story => negb (hasId id story)) (table w'))
               (faults w') (now w') (log w'))
  end.

(** [supabase.auth.signOut()] *)
Definition signOut (w : World) : Response unit * World :=
  let (f, w') := transport SignOut w in
  match f with
  | Some message => (Error message, w')
  | None => (Data tt, w')
  end.

(** ** The state of [Component] (lines 74-88) *)

Record Component := mkComponent
  { currentUser : option User.t;
    userStories : list UserStory.t;
    expandedStories : list string;
    filterNumber : string;
    currentPage : Z;
    errorMessage : string }.

Definition storiesPerPage : Z := 10.

Record Session := mkSession { world : World; view : Component }.

(** ** Handlers as state transformers *)

Definition Async (A : Type) : Type := Session -> A * Session.

Definition ret {A : Type} (a : A) : Async A := fun s => (a, s).

Definition bind {A B : Type} (m : Async A) (k : A -> Async B) : Async B :=
  fun s => let (a, s') := m s in k a s'.

Notation "x <- m ;; k" := (bind m (fun x => k))
  (at level 61, m at next level, right associativity).
Notation "m ;;; k" := (bind m (fun _ => k))
  (at level 61, right associativity).

(** [await] of a request to the remote side. *)
Definition await {A : Type} (req : World -> A * World) : Async A :=
  fun s => let (a, w') := req (world s) in (a, mkSession w' (view s)).

Definition getView : Async Component := fun s => (view s, s).

Definition dateNow : Async N := fun s => (now (world s), s).

Definition setCurrentUser (u : option User.t) : Async unit :=
  fun s =>
    let c := view s in
    (tt, mkSession (world s)
           (mkComponent u (userStories c) (expandedStories c) (filterNumber c)
                        (currentPage c) (errorMessage c))).

Definition setUserStories (f : list UserStory.t -> list UserStory.t)
  : Async unit :=
  fun s =>
    let c := view s in
    (tt, mkSession (world s)
           (mkComponent (currentUser c) (f (userStories c)) (expandedStories c)
                        (filterNumber c) (currentPage c) (errorMessage c))).

Definition setExpandedStories (f : list string -> list string) : Async unit :=
  fun s =>
    let c := view s in
    (tt, mkSession (world s)
           (mkComponent (currentUser c) (userStories c) (f (expandedStories c))
                        (filterNumber c) (currentPage c) (errorMessage c))).

Definition setErrorMessage (message : string) : Async unit :=
  fun s =>
    let c := view s in
    (tt, mkSession (world s)
           (mkComponent (currentUser c) (userStories c) (expandedStories c)
                        (filterNumber c) (currentPage c) message)).

(** ** Session Gate (lines 98-126, 155-160) *)

(** [fetchUserStories]: a failed fetch is only logged to the console. *)
Definition fetchUserStories : Async unit :=
  c <- getView ;;
  match currentUser c with
  | None => ret tt
  | Some u =>
      r <- await (selectStories (User.id u)) ;;
      match r with
      | Error _ => ret tt
      | Data data => setUserStories (fun _ => data)
      end
  end.

(** The callback of [onAuthStateChange], followed by the effect that depends
    on [currentUser]: it fetches when a user is present. *)
Definition authListener (sessionUser : option User.t) : Async unit :=
  setCurrentUser sessionUser ;;;
  match sessionUser with
  | Some _ => fetchUserStories
  | None => ret tt
  end.

(** [handleLogout]: a successful sign-out reaches the component as an auth
    state change with no session. *)
Definition handleLogout : Async unit :=
  r <- await signOut ;;
  match r with
  | Error message => setErrorMessage message
  | Data _ => authListener None
  end.

(** ** Story Repository: [removeUserStory] (lines 195-207) *)

Definition removeUserStory (id : string) : Async unit :=
  r <- await (deleteStory id) ;;
  match r with
  | Error _ => setErrorMessage "Error removing user story"
  | Data _ =>
      setUserStories (filter (fun story => negb (UserStory.id story =? id))) ;;;
      setExpandedStories (filter (fun storyId => negb (storyId =? id)))
  end.

(** ** Change Log Editor (lines 209-263) *)

(** The local reconciliation shared by [addChange] and [removeChange]. *)
Definition replaceCached (storyId : string) (updatedChanges : list Change.t)
  (prevStories : list UserStory.t) : list UserStory.t :=
  map (fun story =>
         if UserStory.id story =? storyId
         then UserStory.withChanges story updatedChanges
         else story) prevStories.

Definition addChange (storyId : string) (changeType : ChangeType)
  (changeDetails : Details) : Async unit :=
  r <- await (selectChanges storyId) ;;
  match r with
  | Error _ => setErrorMessage "Error fetching user story"
  | Data changes =>
      t <- dateNow ;;
      let updatedChanges :=
        changes ++ [Change.mk (toString t) changeType changeDetails] in
      u <- await (updateChanges storyId updatedChanges) ;;
      match u with
      | Error _ => setErrorMessage "Error adding change"
      | Data _ => setUserStories (replaceCached storyId updatedChanges)
      end
  end.

Definition removeChange (storyId changeId : string) : Async unit :=
  r <- await (selectChanges storyId) ;;
  match r with
  | Error _ => setErrorMessage "Error fetching user story"
  | Data changes =>
      let updatedChanges :=
        filter (fun change => negb (Change.id change =? changeId)) changes in
      u <- await (updateChanges storyId updatedChanges) ;;
      match u with
      | Error _ => setErrorMessage "Error removing change"
      | Data _ => setUserStories (replaceCached storyId updatedChanges)
      end
  end.

(** *** [addChange] between its suspension points

    [addChange] is suspended twice, once per request.  A task is resumed
    with the response of the request it waits for; the request reaches the
    table at that moment.  What runs between two suspension points is not
    interrupted: the component runs on a single event loop. *)

Inductive AddChangeTask :=
| AwaitingSelect (storyId : string) (changeType : ChangeType)
    (changeDetails : Details)
| AwaitingUpdate (storyId : string) (updatedChanges : list Change.t)
| Settled.

Definition resume (task : AddChangeTask) : Async AddChangeTask :=
  match task with
  | AwaitingSelect storyId changeType changeDetails =>
      r <- await (selectChanges storyId) ;;
      match r with
      | Error _ => setErrorMessage "Error fetching user story" ;;; ret Settled
      | Data changes =>
          t <- dateNow ;;
          ret (AwaitingUpdate storyId
                 (changes ++ [Change.mk (toString t) changeType changeDetails]))
      end
  | AwaitingUpdate storyId updatedChanges =>
      u <- await (updateChanges storyId updatedChanges) ;;
      match u with
      | Error _ => setErrorMessage "Error adding change" ;;; ret Settled
      | Data _ =>
          setUserStories (replaceCached storyId updatedChanges) ;;; ret Settled
      end
  | Settled => ret Settled
  end.

(** What the event loop does next: resume the [i]-th task, or let the clock
    move on to [t]. *)
Inductive Event :=
| Resume (i : nat)
| Clock (t : N).

Fixpoint setNth {A : Type} (i : nat) (a : A) (l : list A) : list A :=
  match l, i with
  | [], _ => []
  | _ :: rest, O => a :: rest
  | x :: rest, S j => x :: setNth j a rest
  end.

Definition setClock (t : N) : Async unit :=
  fun s =>
    let w := world s in
    (tt, mkSession (mkWorld (table w) (faults w) t (log w)) (view s)).

Definition step (e : Event) (tasks : list AddChangeTask)
  : Async (list AddChangeTask) :=
  match e with
  | Resume i =>
      match nth_error tasks i with
      | Some task => task' <- resume task ;; ret (setNth i task' tasks)
      | None => ret tasks
      end
  | Clock t => setClock t ;;; ret tasks
  end.

Fixpoint run (schedule : list Event) (tasks : list AddChangeTask)
  : Async (list AddChangeTask) :=
  match schedule with
  | [] => ret tasks
  | e :: rest => tasks' <- step e tasks ;; run rest tasks'
  end.

(** ** Change Codec: the form of [ChangeForm] (lines 460-534) *)

Module ChangeForm.

Record state := mk
  { changeType : ChangeType;
    date : string;
    fieldApiName : string;
    fieldLabel : string;
    fieldType : string;
    lwcComponentName : string;
    lwcFileType : string;
    lwcCode : string;
    profile : string;
    permissionSet : string;
    permission : string;
    readAccess : bool;
    writeAccess : bool;
    note : string }.

(** The [useState] initial values. *)
Definition initial : state :=
  mk Field "" "" "" "" "" "" "" "" "" "" false false "".

(** The [useState] setters the inputs of the form call. *)
Definition setChangeType (value : ChangeType) (f : state) : state :=
  mk value (date f) (fieldApiName f) (fieldLabel f) (fieldType f)
     (lwcComponentName f) (lwcFileType f) (lwcCode f) (profile f)
     (permissionSet f) (permission f) (readAccess f) (writeAccess f) (note f).

Definition setDate (value : string) (f : state) : state :=
  mk (changeType f) value (fieldApiName f) (fieldLabel f) (fieldType f)
     (lwcComponentName f) (lwcFileType f) (lwcCode f) (profile f)
     (permissionSet f) (permission f) (readAccess f) (writeAccess f) (note f).

Definition setPermissionSet (value : string) (f : state) : state :=
  mk (changeType f) (date f) (fieldApiName f) (fieldLabel f) (fieldType f)
     (lwcComponentName f) (lwcFileType f) (lwcCode f) (profile f)
     value (permission f) (readAccess f) (writeAccess f) (note f).

Definition setPermission (value : string) (f : state) : state :=
  mk (changeType f) (date f) (fieldApiName f) (fieldLabel f) (fieldType f)
     (lwcComponentName f) (lwcFileType f) (lwcCode f) (profile f)
     (permissionSet f) value (readAccess f) (writeAccess f) (note f).

Definition setReadAccess (value : bool) (f : state) : state :=
  mk (changeType f) (date f) (fieldApiName f) (fieldLabel f) (fieldType f)
     (lwcComponentName f) (lwcFileType f) (lwcCode f) (profile f)
     (permissionSet f) (permission f) value (writeAccess f) (note f).

Definition setWriteAccess (value : bool) (f : state) : state :=
  mk (changeType f) (date f) (fieldApiName f) (fieldLabel f) (fieldType f)
     (lwcComponentName f) (lwcFileType f) (lwcCode f) (profile f)
     (permissionSet f) (permission f) (readAccess f) value (note f).

Definition setNote (value : string) (f : state) : state :=
  mk (changeType f) (date f) (fieldApiName f) (fieldLabel f) (fieldType f)
     (lwcComponentName f) (lwcFileType f) (lwcCode f) (profile f)
     (permissionSet f) (permission f) (readAccess f) (writeAccess f) value.

Inductive Validated :=
| Rejected (message : string)
| Accepted (changeDetails : Details).

(** The checks of [handleAddChange] (lines 477-516): the date, then the
    fields of the selected change type.  The [default] branch of the source
    cannot be reached: [ChangeType] has four values. *)
Definition validate (f : state) : Validated :=
  if negb (truthy (date f)) then
    Rejected "Please select a date for the change."
  else
    match changeType f with
    | Field =>
        if negb (truthy (fieldApiName f)) || negb (truthy (fieldLabel f))
           || negb (truthy (fieldType f))
        then Rejected "Please fill in all required fields for Field Change."
        else Accepted (OfField
               (FieldChange.mk (date f) (fieldApiName f) (fieldLabel f)
                               (fieldType f) (note f)))
    | LWC =>
        if negb (truthy (lwcComponentName f)) || negb (truthy (lwcFileType f))
        then Rejected "Please fill in all required fields for LWC Change."
        else Accepted (OfLWC
               (LWCChange.mk (date f) (lwcComponentName f) (lwcFileType f)
                             (Some (lwcCode f)) (note f)))
    | Profile =>
        if negb (truthy (profile f))
        then Rejected "Please enter a profile name."
        else Accepted (OfProfile (ProfileChange.mk (date f) (profile f) (note f)))
    | Permission =>
        if negb (truthy (permissionSet f)) || negb (truthy (permission f))
        then Rejected "Please fill in all required fields for Permission Change."
        else Accepted (OfPermission
               (PermissionChange.mk (date f) (permissionSet f) (permission f)
                  (Access.mk (readAccess f) (writeAccess f)) (note f)))
    end.

(** The reset at the end of [handleAddChange]: every field but the change
    type. *)
Definition reset (f : state) : state :=
  mk (changeType f) "" "" "" "" "" "" "" "" "" "" false false "".

(** [handleAddChange]: a rejected form only sets the error message; an
    accepted one is handed to [addChange] and the form is reset. *)
Definition handleAddChange (storyId : string) (f : state) : Async state :=
  match validate f with
  | Rejected message => setErrorMessage message ;;; ret f
  | Accepted changeDetails =>
      addChange storyId (changeType f) changeDetails ;;; ret (reset f)
  end.

End ChangeForm.

(** ** Query View (lines 273-282, 284, 442-444) *)

Definition setCurrentPage (pageNumber : Z) : Async unit :=
  fun s =>
    let c := view s in
    (tt, mkSession (world s)
           (mkComponent (currentUser c) (userStories c) (expandedStories c)
                        (filterNumber c) pageNumber (errorMessage c))).

Definition matchesNumber (filterNumber : string) (story : UserStory.t) : bool :=
  if truthy filterNumber then includes (UserStory.number story) filterNumber
  else true.

(** [filteredStories], as a function of the two state variables it reads. *)
Definition filterByNumber (userStories : list UserStory.t)
  (filterNumber : string) : list UserStory.t :=
  filter (matchesNumber filterNumber) userStories.

Definition indexOfLastStory (perPage currentPage : Z) : Z :=
  (currentPage * perPage)%Z.

Definition indexOfFirstStory (perPage currentPage : Z) : Z :=
  (indexOfLastStory perPage currentPage - perPage)%Z.

(** [currentStories], as a function of the list, the page size and the page
    number; the source fixes the page size to [storiesPerPage]. *)
Definition pageOf (stories : list UserStory.t) (perPage currentPage : Z)
  : list UserStory.t :=
  slice stories (indexOfFirstStory perPage currentPage)
        (indexOfLastStory perPage currentPage).

(** The number of page buttons: [Math.ceil(length / storiesPerPage)]. *)
Definition pageCount (n perPage : Z) : Z := ceilDiv n perPage.

Definition filteredStories (c : Component) : list UserStory.t :=
  filterByNumber (userStories c) (filterNumber c).

Definition currentStories (c : Component) : list UserStory.t :=
  pageOf (filteredStories c) storiesPerPage (currentPage c).

Definition paginate (pageNumber : Z) : Async unit := setCurrentPage pageNumber.

(** What the component renders: the login card when nobody is signed in,
    the current page of stories otherwise. *)
Definition renderedStories (c : Component) : list UserStory.t :=
  match currentUser c with
  | None => []
  | Some _ => currentStories c
  end.

(** ** The rest of [Component]: expansion, the page buttons, new stories *)

(** [toggleStoryExpansion] (lines 265-271); [prev.includes] is list
    membership. *)
Definition toggleStoryExpansion (storyId : string) : Async unit :=
  setExpandedStories
    (fun prev =>
       if existsb (fun id => id =? storyId) prev
       then filter (fun id => negb (id =? storyId)) prev
       else prev ++ [storyId]).

(** [setFilterNumber], called by the filter input on every change (line
    401). *)
Definition setFilterNumber (value : string) : Async unit :=
  fun s =>
    let c := view s in
    (tt, mkSession (world s)
           (mkComponent (currentUser c) (userStories c) (expandedStories c)
                        value (currentPage c) (errorMessage c))).

(** [Array.from({ length: n }, (_, i) => i + 1)]: the labels of the page
    buttons. *)
Definition pageNumbers (n : Z) : list Z :=
  map (fun i => (Z.of_nat i + 1)%Z) (seq 0 (Z.to_nat n)).

(** The page buttons (lines 442-454): none unless the filtered stories
    exceed one page. *)
Definition pageButtons (c : Component) : list Z :=
  if (storiesPerPage <? Z.of_nat (List.length (filteredStories c)))%Z
  then pageNumbers
         (pageCount (Z.of_nat (List.length (filteredStories c))) storiesPerPage)
  else [].

(** White space and line terminators of ECMAScript among the code units a
    [string] holds: TAB, LF, VT, FF, CR, SP and NBSP. *)
Definition isWhiteSpace (c : ascii) : bool :=
  let n := nat_of_ascii c in
  ((9 <=? n) && (n <=? 13) || (n =? 32) || (n =? 160))%nat.

Fixpoint trimStart (s : string) : string :=
  match s with
  | EmptyString => EmptyString
  | String c rest => if isWhiteSpace c then trimStart rest else s
  end.

Fixpoint trimEnd (s : string) : string :=
  match s with
  | EmptyString => EmptyString
  | String c rest =>
      match trimEnd rest with
      | EmptyString => if isWhiteSpace c then EmptyString else String c EmptyString
      | kept => String c kept
      end
  end.

(** [String.prototype.trim] *)
Definition trim (s : string) : string := trimEnd (trimStart s).

(** The state variables of the "Add New User Story" card (lines 79-83). *)
Record NewStoryForm := mkNewStoryForm
  { newStoryExpanded : bool;
    newStoryNumber : string;
    newStoryTitle : string;
    newStoryDescription : string;
    newStoryDate : string }.

(** [Omit<UserStory, 'id'>]: a story before the store gives it an id. *)
Module NewStory.
Record t := mk
  { userId : string; number : string; title : string; description : string;
    date : string; changes : list Change.t }.
End NewStory.

(** [addUserStory] (lines 162-193).  [insert] stands for the awaited
    [.insert([newStory]).select()]: it answers with an error or with
    [data[0]], the row as the store keeps it.  The handler is a function of
    the component state, the form and that answer. *)
Definition addUserStory (insert : NewStory.t -> Response UserStory.t)
  (c : Component) (f : NewStoryForm) : Component * NewStoryForm :=
  match currentUser c with
  | None => (c, f)
  | Some user =>
      if (trim (newStoryTitle f) =? "") || (newStoryDate f =? "")
         || (trim (newStoryNumber f) =? "")
      then
        (mkComponent (currentUser c) (userStories c) (expandedStories c)
           (filterNumber c) (currentPage c)
           "Please fill in all required fields for the new user story.", f)
      else
        let newStory :=
          NewStory.mk (User.id user) (newStoryNumber f) (newStoryTitle f)
                      (newStoryDescription f) (newStoryDate f) [] in
        match insert newStory with
        | Error _ =>
            (mkComponent (currentUser c) (userStories c) (expandedStories c)
               (filterNumber c) (currentPage c) "Error adding user story", f)
        | Data row =>
            (mkComponent (currentUser c) (userStories c ++ [row])
               (expandedStories c) (filterNumber c) (currentPage c)
               (errorMessage c),
             mkNewStoryForm false "" "" "" "")
        end
  end.

(** ** [ChangeDisplay]: the highlighter language (lines 660-673) *)

(** [toLowerCase] on one code unit below 256: the letters A-Z, and the
    accented capitals but the multiplication sign, move up by 32. *)
Definition toLowerCaseUnit (c : ascii) : ascii :=
  let n := nat_of_ascii c in
  if ((65 <=? n) && (n <=? 90)
      || (192 <=? n) && (n <=? 222) && negb (n =? 215))%nat
  then ascii_of_nat (n + 32)
  else c.

Fixpoint toLowerCase (s : string) : string :=
  match s with
  | EmptyString => EmptyString
  | String c rest => String (toLowerCaseUnit c) (toLowerCase rest)
  end.

Definition getLanguage (fileType : string) : string :=
  let lowered := toLowerCase fileType in
  if lowered =? "html" then "html"
  else if lowered =? "js" then "javascript"
  else if lowered =? "css" then "css"
  else if lowered =? "xml" then "xml"
  else "javascript".

(** ** Vocabulary of the properties, and the sessions used as examples *)

(** [q] occurs in [s]: the substring relation on code units. *)
Definition Occurs (q s : string) : Prop :=
  exists before after : string, s = (before ++ q ++ after)%string.

(** [c] is the ceiling of [n / d]: the least integer with [n <= c * d]. *)
Definition IsCeiling (n d c : Z) : Prop :=
  ((c - 1) * d < n <= c * d)%Z.

(** The session a handler leaves behind. *)
Definition after {A : Type} (m : Async A) (s : Session) : Session := snd (m s).

(** Every coming request succeeds. *)
Definition Reliable (w : World) : Prop :=
  forall f : option string, In f (faults w) -> f = None.

(** The table after an [update] of the changes of [id]. *)
Definition overwritten (id : string) (changes : list Change.t)
  (rows : list UserStory.t) : list UserStory.t :=
  map (fun story =>
         if hasId id story then UserStory.withChanges story changes else story)
      rows.

Definition earlierChange : Change.t :=
  Change.mk "1704153600000" Profile
    (OfProfile (ProfileChange.mk "2024-01-02" "Sales User" "")).

Definition collidingStory : UserStory.t :=
  UserStory.mk "s1" "alice" "US-1" "Add field" "" "2024-01-01" [earlierChange].

(** A session in which the clock reads the very millisecond that gave the
    stored change its id. *)
Definition collidingSession : Session :=
  mkSession
    (mkWorld [collidingStory] [] 1704153600000 [])
    (mkComponent (Some (User.mk "alice" None)) [collidingStory] [] "" 1 "").

Definition fooDraft : Details :=
  OfField (FieldChange.mk "2024-01-02" "Foo__c" "Foo" "Text" "").

(** A Permission form with a date and a permission set, but no permission. *)
Definition permissionSetOnlyForm : ChangeForm.state :=
  ChangeForm.setPermissionSet "Sales_PS"
    (ChangeForm.setDate "2024-01-02"
       (ChangeForm.setChangeType Permission ChangeForm.initial)).

Definition alice : User.t := User.mk "alice" (Some "alice@example.com").
Definition bob : User.t := User.mk "bob" (Some "bob@example.com").

Definition aliceStory : UserStory.t :=
  UserStory.mk "s1" "alice" "US-1" "Add field" "" "2024-01-01" [].

Definition bobStory : UserStory.t :=
  UserStory.mk "s2" "bob" "US-2" "Edit profile" "" "2024-01-03" [].

(** Nobody is signed in; the third request to come will fail. *)
Definition signedOutSession : Session :=
  mkSession
    (mkWorld [aliceStory; bobStory] [None; None; Some "Failed to fetch"]
             1704153600000 [])
    (mkComponent None [] [] "" 1 "").

(** The table holds no story with id [s9]. *)
Definition aliceSession : Session :=
  mkSession
    (mkWorld [aliceStory; bobStory] [] 1704153600000 [])
    (mkComponent (Some alice) [aliceStory] [] "" 1 "").

(** The interleaving of C8: both tasks read, then both write. *)
Definition racingSchedule (t1 t2 : N) : list Event :=
  [Clock t1; Resume 0; Clock t2; Resume 1; Resume 0; Resume 1].

(** One append after the other. *)
Definition serialSchedule (t1 t2 : N) : list Event :=
  [Clock t1; Resume 0; Resume 0; Clock t2; Resume 1; Resume 1].

(** A filled-in Field form, and the record it is accepted as. *)
Definition fooForm : ChangeForm.state :=
  ChangeForm.mk Field "2024-01-02" "Foo__c" "Foo" "Text" "" "" "" "" "" ""
                false false "".

(** Alice's session when the next request fails, and when the one after
    the next fails. *)
Definition offlineSession : Session :=
  mkSession
    (mkWorld [collidingStory] [Some "Failed to fetch"] 1704240000000 [])
    (mkComponent (Some alice) [collidingStory] [] "" 1 "").

Definition flakySession : Session :=
  mkSession
    (mkWorld [collidingStory] [None; Some "Failed to fetch"] 1704240000000 [])
    (mkComponent (Some alice) [collidingStory] [] "" 1 "").

(** The colliding session one day later. *)
Definition laterSession : Session :=
  mkSession
    (mkWorld [collidingStory] [] 1704240000000 [])
    (mkComponent (Some alice) [collidingStory] [] "" 1 "").

Definition threeStories : list UserStory.t :=
  [aliceStory; bobStory; collidingStory].

(** The variant a detail record belongs to. *)
Definition detailsType (d : Details) : ChangeType :=
  match d with
  | OfField _ => Field
  | OfLWC _ => LWC
  | OfProfile _ => Profile
  | OfPermission _ => Permission
  end.

(** A change whose details are of the variant its type names. *)
Definition Conforms (change : Change.t) : Prop :=
  detailsType (Change.details change) = Change.type change.

(** The fields the form requires for a detail record, all non-empty. *)
Definition requiredFields (d : Details) : list string :=
  match d with
  | OfField x =>
      [FieldChange.date x; FieldChange.apiName x; FieldChange.label x;
       FieldChange.fieldType x]
  | OfLWC x =>
      [LWCChange.date x; LWCChange.componentName x; LWCChange.fileType x]
  | OfProfile x => [ProfileChange.date x; ProfileChange.profile x]
  | OfPermission x =>
      [PermissionChange.date x; PermissionChange.permissionSet x;
       PermissionChange.permission x]
  end.

(** The fields of the form that [validate] looks at, by change type. *)
Definition inputsChecked (f : ChangeForm.state) : list string :=
  ChangeForm.date f ::
  match ChangeForm.changeType f with
  | Field =>
      [ChangeForm.fieldApiName f; ChangeForm.fieldLabel f;
       ChangeForm.fieldType f]
  | LWC => [ChangeForm.lwcComponentName f; ChangeForm.lwcFileType f]
  | Profile => [ChangeForm.profile f]
  | Permission => [ChangeForm.permissionSet f; ChangeForm.permission f]
  end.

(** The ids of the changes stored for a story, in order. *)
Definition changeIds (changes : list Change.t) : list string :=
  map Change.id changes.

(** A string of white space only (the empty string included). *)
Definition Blank (s : string) : Prop :=
  forall c : ascii, In c (list_ascii_of_string s) -> isWhiteSpace c = true.

(** A store that keeps a new story as it was sent, under some id. *)
Definition Echoes (insert : NewStory.t -> Response UserStory.t) : Prop :=
  forall (newStory : NewStory.t) (row : UserStory.t),
    insert newStory = Data row ->
    UserStory.userId row = NewStory.userId newStory
    /\ UserStory.number row = NewStory.number newStory
    /\ UserStory.title row = NewStory.title newStory
    /\ UserStory.description row = NewStory.description newStory
    /\ UserStory.date row = NewStory.date newStory
    /\ UserStory.changes row = NewStory.changes newStory.

(** A store that echoes, and numbers the stories it is given. *)
Definition numberingStore (newStory : NewStory.t) : Response UserStory.t :=
  Data (UserStory.mk "s7" (NewStory.userId newStory) (NewStory.number newStory)
          (NewStory.title newStory) (NewStory.description newStory)
          (NewStory.date newStory) (NewStory.changes newStory)).

Definition failingStore (newStory : NewStory.t) : Response UserStory.t :=
  Error "Failed to fetch".

Definition paddedForm : NewStoryForm :=
  mkNewStoryForm true " US-7 " "Add field" "" "2024-01-05".

Definition blankTitleForm : NewStoryForm :=
  mkNewStoryForm true "US-7" "   " "" "2024-01-05".

(** Every change of every story in [rows] conforms. *)
Definition AllConform (rows : list UserStory.t) : Prop :=
  forall (story : UserStory.t) (change : Change.t),
    In story rows -> In change (UserStory.changes story) -> Conforms change.

(** Two stories that differ at most in their changes. *)
Definition SameButChanges (a b : UserStory.t) : Prop :=
  UserStory.id a = UserStory.id b
  /\ UserStory.userId a = UserStory.userId b
  /\ UserStory.number a = UserStory.number b
  /\ UserStory.title a = UserStory.title b
  /\ UserStory.description a = UserStory.description b
  /\ UserStory.date a = UserStory.date b.

(** Two component states with the same user, expansion, filter and page. *)
Definition SameSettings (a b : Component) : Prop :=
  currentUser a = currentUser b
  /\ expandedStories a = expandedStories b
  /\ filterNumber a = filterNumber b
  /\ currentPage a = currentPage b.

(** Eleven stories in the cache, the second page shown. *)
Definition crowdedSession : Session :=
  mkSession
    (mkWorld (repeat aliceStory 10 ++ [bobStory]) [] 1704240000000 [])
    (mkComponent (Some alice) (repeat aliceStory 10 ++ [bobStory]) [] "" 2 "").

(** A story with two stored changes, and Alice's session on it. *)
Definition laterChange : Change.t :=
  Change.mk "1704200000000" Field
    (OfField (FieldChange.mk "2024-01-02" "Bar__c" "Bar" "Number" "")).

Definition twoChangeStory : UserStory.t :=
  UserStory.mk "s1" "alice" "US-1" "Add field" "" "2024-01-01"
               [earlierChange; laterChange].

Definition twoChangeSession : Session :=
  mkSession
    (mkWorld [twoChangeStory; bobStory] [] 1704240000000 [])
    (mkComponent (Some alice) [twoChangeStory] [] "" 1 "").


(** The letters of the four file types. *)
Definition fileTypeLetter (w : ascii) : Prop :=
  In w ["h"; "t"; "m"; "l"; "j"; "s"; "c"; "x"]%char.

(** [s] spells [word], letter by letter, in upper or lower case. *)
Fixpoint Spells (word s : string) : Prop :=
  match word, s with
  | EmptyString, EmptyString => True
  | String w word', String c s' =>
      (c = w \/ nat_of_ascii c + 32 = nat_of_ascii w)%nat /\ Spells word' s'
  | _, _ => False
  end.

(** * Properties *)

(** ** Strings and substrings *)

Lemma prefix_iff_app (q s : string) :
  prefix q s = true <-> exists after : string, s = (q ++ after)%string.
Proof.
  revert s; induction q as [|a q IH]; intros s; simpl.
  - split; [intros _; now exists s | now destruct s].
  - destruct s as [|b s]; simpl.
    + split; [discriminate | intros [after H]; discriminate].
    + destruct (ascii_dec a b) as [->|Hab].
      * rewrite IH; split; intros [after H]; exists after; congruence.
      * split; [discriminate | intros [after H]; congruence].
Qed.

Lemma includes_iff_Occurs (s q : string) :
  includes s q = true <-> Occurs q s.
Proof.
  unfold Occurs; induction s as [|c s IH].
  - cbn [includes]; rewrite orb_false_r, prefix_iff_app; split.
    + intros [after H]; now exists EmptyString, after.
    + intros [[|x before] [after H]]; simpl in H; [now exists after | discriminate].
  - cbn [includes]; rewrite orb_true_iff, IH, prefix_iff_app; split.
    + intros [[after H]|[before [after H]]].
      * now exists EmptyString, after.
      * exists (String c before), after; simpl; now rewrite H.
    + intros [[|x before] [after H]]; simpl in H.
      * left; now exists after.
      * right; exists before, after; congruence.
Qed.

Lemma includes_empty (s : string) : includes s "" = true.
Proof. destruct s; reflexivity. Qed.

Lemma matchesNumber_includes (q : string) (story : UserStory.t) :
  matchesNumber q story = includes (UserStory.number story) q.
Proof.
  unfold matchesNumber; destruct q; simpl; [|reflexivity].
  now rewrite includes_empty.
Qed.

(** [includes] tells upper case from lower case. *)
Example includes_case_sensitive :
  includes "US-12" "US-1" = true /\ includes "US-12" "us-1" = false.
Proof. split; reflexivity. Qed.

(** ** Slices and ceilings *)

Lemma firstn_min_length {A : Type} (n : nat) (l : list A) :
  firstn (Nat.min n (List.length l)) l = firstn n l.
Proof.
  destruct (Nat.le_gt_cases n (List.length l)) as [H|H].
  - now rewrite Nat.min_l.
  - rewrite Nat.min_r by lia.
    rewrite firstn_all, firstn_all2 by lia; reflexivity.
Qed.

(** A slice with bounds [0 <= start <= finish] is a [skipn] then a [firstn]. *)
Lemma slice_skipn_firstn {A : Type} (l : list A) (start finish : Z) :
  (0 <= start <= finish)%Z ->
  slice l start finish =
  firstn (Z.to_nat (finish - start)) (skipn (Z.to_nat start) l).
Proof.
  intros H; unfold slice, relativeIndex.
  destruct (Z.ltb_spec start 0); [lia|].
  destruct (Z.ltb_spec finish 0); [lia|].
  destruct (Z_lt_le_dec (Z.of_nat (List.length l)) start) as [Hout|Hin].
  - rewrite !skipn_all2 by lia. now rewrite !firstn_nil.
  - rewrite (Z.min_l start) by lia.
    rewrite <- (firstn_min_length (Z.to_nat (finish - start))).
    f_equal. rewrite length_skipn. lia.
Qed.

Lemma ceilDiv_opp_div (a b : Z) :
  (0 < b)%Z -> ceilDiv a b = (- (- a / b))%Z.
Proof.
  destruct b as [|p|p]; try lia; intros _.
  unfold ceilDiv, Qceiling, Qfloor, Qdiv, Qmult, Qinv, Qopp, inject_Z; simpl.
  now rewrite Z.mul_1_r.
Qed.

Lemma ceilDiv_IsCeiling (n d : Z) : (0 < d)%Z -> IsCeiling n d (ceilDiv n d).
Proof.
  intros Hd; unfold IsCeiling; rewrite ceilDiv_opp_div by assumption.
  pose proof (Z.mul_div_le (- n) d Hd).
  pose proof (Z.mul_succ_div_gt (- n) d Hd).
  nia.
Qed.

Lemma IsCeiling_least (n d c k : Z) :
  (0 < d)%Z -> IsCeiling n d c -> (n <= k * d)%Z -> (c <= k)%Z.
Proof. unfold IsCeiling; intros Hd [Hlo _] Hk; nia. Qed.

(** ** Query View *)

(** C10. [filterByNumber] keeps exactly the stories whose number contains
    the query as a substring ([includes] decides the substring relation
    [Occurs] on code units), in the order of the input (it is a [filter]);
    the empty query keeps everything; filtering twice with the same query
    is filtering once. *)
Theorem filterByNumber_substring_stable_idempotent :
  forall (stories : list UserStory.t) (query : string),
    (forall n : string, includes n query = true <-> Occurs query n)
    /\ filterByNumber stories query =
       filter (fun story => includes (UserStory.number story) query) stories
    /\ (forall story : UserStory.t,
          In story (filterByNumber stories query) <->
          In story stories /\ Occurs query (UserStory.number story))
    /\ filterByNumber stories "" = stories
    /\ filterByNumber (filterByNumber stories query) query =
       filterByNumber stories query.
Proof.
  intros stories query.
  assert (Hfilter : filterByNumber stories query =
            filter (fun story => includes (UserStory.number story) query) stories)
    by (apply filter_ext, matchesNumber_includes).
  split; [intros n; apply includes_iff_Occurs|].
  split; [exact Hfilter|].
  split; [|split].
  - intros story; rewrite Hfilter, filter_In, includes_iff_Occurs; reflexivity.
  - unfold filterByNumber, matchesNumber; simpl; apply filter_true.
  - unfold filterByNumber; apply forallb_filter_id, forallb_filter.
Qed.

(** C9. For a page size above zero and a page number from 1 on, the page is
    the slice of the input at indices [(p-1)*s, p*s): its [i]-th element is
    the element [(p-1)*s + i] of the input for [i < s] and there is none
    beyond; a page past the last one is empty, not an error; and the page
    count is the ceiling of [n / s]. *)
Theorem pageOf_slice_pageCount_ceiling :
  forall (stories : list UserStory.t) (pageSize pageNumber : Z),
    (0 < pageSize)%Z -> (1 <= pageNumber)%Z ->
    (forall i : nat,
        nth_error (pageOf stories pageSize pageNumber) i =
        if (Z.of_nat i <? pageSize)%Z
        then nth_error stories (Z.to_nat ((pageNumber - 1) * pageSize) + i)
        else None)
    /\ pageOf stories pageSize pageNumber =
       firstn (Z.to_nat pageSize)
              (skipn (Z.to_nat ((pageNumber - 1) * pageSize)) stories)
    /\ ((pageCount (Z.of_nat (List.length stories)) pageSize < pageNumber)%Z ->
        pageOf stories pageSize pageNumber = [])
    /\ (forall n : Z, (0 <= n)%Z ->
          IsCeiling n pageSize (pageCount n pageSize)
          /\ forall k : Z, (n <= k * pageSize)%Z -> (pageCount n pageSize <= k)%Z).
Proof.
  intros stories s p Hs Hp.
  assert (Hpage : pageOf stories s p =
            firstn (Z.to_nat s) (skipn (Z.to_nat ((p - 1) * s)) stories)).
  { unfold pageOf, indexOfFirstStory, indexOfLastStory.
    rewrite slice_skipn_firstn by nia.
    replace (p * s - s)%Z with ((p - 1) * s)%Z by ring.
    do 2 f_equal; lia. }
  split; [|split; [exact Hpage|split]].
  - intros i; rewrite Hpage, nth_error_firstn, nth_error_skipn.
    destruct (Nat.ltb_spec i (Z.to_nat s)), (Z.ltb_spec (Z.of_nat i) s);
      try lia; reflexivity.
  - intros Hbeyond; rewrite Hpage.
    destruct (ceilDiv_IsCeiling (Z.of_nat (List.length stories)) s Hs) as [_ Hup].
    unfold pageCount in Hbeyond.
    rewrite skipn_all2 by nia. apply firstn_nil.
  - intros n Hn; split.
    + apply ceilDiv_IsCeiling; assumption.
    + intros k Hk; eapply IsCeiling_least; eauto.
      apply ceilDiv_IsCeiling; assumption.
Qed.

(** ** The remote side *)

Lemma transport_table (r : Request) (w : World) :
  table (snd (transport r w)) = table w
  /\ now (snd (transport r w)) = now w
  /\ log (snd (transport r w)) = log w ++ [r].
Proof. unfold transport; destruct (faults w); simpl; auto. Qed.

Lemma transport_Reliable (r : Request) (w : World) :
  Reliable w ->
  fst (transport r w) = None /\ Reliable (snd (transport r w)).
Proof.
  unfold Reliable, transport; intros H.
  destruct (faults w) as [|f rest] eqn:E; simpl.
  - split; [reflexivity|intros f []].
  - split; [apply H; now left|intros g Hg; apply H; now right].
Qed.

Lemma withChanges_id (story : UserStory.t) (changes : list Change.t) :
  UserStory.id (UserStory.withChanges story changes) = UserStory.id story.
Proof. reflexivity. Qed.

Lemma withChanges_changes (story : UserStory.t) (changes : list Change.t) :
  UserStory.changes (UserStory.withChanges story changes) = changes.
Proof. reflexivity. Qed.

Lemma withChanges_self (story : UserStory.t) :
  UserStory.withChanges story (UserStory.changes story) = story.
Proof. now destruct story. Qed.

Lemma filter_hasId_overwritten (id : string) (changes : list Change.t)
  (rows : list UserStory.t) :
  filter (hasId id) (overwritten id changes rows) =
  map (fun story => UserStory.withChanges story changes)
      (filter (hasId id) rows).
Proof.
  unfold overwritten; induction rows as [|r rows IH]; simpl; [reflexivity|].
  destruct (hasId id r) eqn:E; simpl.
  - unfold hasId in *; rewrite withChanges_id, E; simpl; now rewrite IH.
  - now rewrite E, IH.
Qed.

Lemma overwritten_In (id : string) (changes : list Change.t)
  (rows : list UserStory.t) (story : UserStory.t) :
  In story (overwritten id changes rows) ->
  UserStory.id story = id -> UserStory.changes story = changes.
Proof.
  unfold overwritten; rewrite in_map_iff; intros [r [Hr _]] Hid.
  destruct (hasId id r) eqn:E; subst story; [reflexivity|].
  unfold hasId in E; apply String.eqb_neq in E; contradiction.
Qed.

Lemma replaceCached_overwritten (id : string) (changes : list Change.t)
  (rows : list UserStory.t) :
  replaceCached id changes rows = overwritten id changes rows.
Proof. reflexivity. Qed.

Lemma selectChanges_world (id : string) (w : World) :
  snd (selectChanges id w) = snd (transport (SelectChanges id) w).
Proof.
  unfold selectChanges; destruct (transport (SelectChanges id) w) as [[m|] w'];
    simpl; [reflexivity|].
  destruct (filter (hasId id) (table w')) as [|r [|r' rest]]; reflexivity.
Qed.

Lemma selectChanges_Data (id : string) (w w1 : World) (current : list Change.t) :
  selectChanges id w = (Data current, w1) ->
  w1 = snd (transport (SelectChanges id) w)
  /\ exists story : UserStory.t,
       filter (hasId id) (table w) = [story]
       /\ UserStory.changes story = current.
Proof.
  intros H; split.
  - rewrite <- selectChanges_world, H; reflexivity.
  - unfold selectChanges in H.
    pose proof (transport_table (SelectChanges id) w) as [Ht _].
    destruct (transport (SelectChanges id) w) as [[m|] w']; simpl in *;
      [discriminate|].
    rewrite Ht in H.
    destruct (filter (hasId id) (table w)) as [|r [|r' rest]];
      try discriminate.
    exists r; split; [reflexivity|congruence].
Qed.

Lemma selectChanges_Reliable (id : string) (w : World) (story : UserStory.t) :
  Reliable w -> filter (hasId id) (table w) = [story] ->
  selectChanges id w =
  (Data (UserStory.changes story), snd (transport (SelectChanges id) w)).
Proof.
  intros Hr Hrow; unfold selectChanges.
  destruct (transport_Reliable (SelectChanges id) w Hr) as [Hf _].
  pose proof (transport_table (SelectChanges id) w) as [Ht _].
  destruct (transport (SelectChanges id) w) as [f w']; simpl in *; subst f.
  now rewrite Ht, Hrow.
Qed.

Lemma updateChanges_Data (id : string) (changes : list Change.t) (w w2 : World)
  (u : unit) :
  updateChanges id changes w = (Data u, w2) ->
  table w2 = overwritten id changes (table w)
  /\ now w2 = now w
  /\ log w2 = log w ++ [UpdateChanges id changes].
Proof.
  unfold updateChanges; intros H.
  pose proof (transport_table (UpdateChanges id changes) w) as [Ht [Hn Hl]].
  destruct (transport (UpdateChanges id changes) w) as [[m|] w']; simpl in *;
    [discriminate|].
  inversion H; subst; simpl; rewrite Ht; auto.
Qed.

Lemma updateChanges_Error (id : string) (changes : list Change.t) (w w2 : World)
  (message : string) :
  updateChanges id changes w = (Error message, w2) ->
  table w2 = table w /\ log w2 = log w ++ [UpdateChanges id changes].
Proof.
  unfold updateChanges; intros H.
  pose proof (transport_table (UpdateChanges id changes) w) as [Ht [Hn Hl]].
  destruct (transport (UpdateChanges id changes) w) as [[m|] w']; simpl in *;
    [|discriminate].
  inversion H; subst; auto.
Qed.

Lemma updateChanges_Reliable (id : string) (changes : list Change.t) (w : World) :
  Reliable w ->
  exists w2 : World,
    updateChanges id changes w = (Data tt, w2)
    /\ Reliable w2
    /\ table w2 = overwritten id changes (table w)
    /\ now w2 = now w.
Proof.
  intros Hr; unfold updateChanges.
  destruct (transport_Reliable (UpdateChanges id changes) w Hr) as [Hf Hr'].
  pose proof (transport_table (UpdateChanges id changes) w) as [Ht [Hn _]].
  destruct (transport (UpdateChanges id changes) w) as [f w']; simpl in *;
    subst f.
  eexists; split; [reflexivity|]; simpl; rewrite Ht; auto.
Qed.

(** ** Running the two editors of the change log *)

Lemma addChange_fetch_error (storyId : string) (ty : ChangeType) (d : Details)
  (s : Session) (message : string) (w1 : World) :
  selectChanges storyId (world s) = (Error message, w1) ->
  after (addChange storyId ty d) s =
  after (setErrorMessage "Error fetching user story") (mkSession w1 (view s)).
Proof.
  intros H; unfold after, addChange, bind, await; now rewrite H.
Qed.

Lemma addChange_update_error (storyId : string) (ty : ChangeType) (d : Details)
  (s : Session) (current : list Change.t) (message : string) (w1 w2 : World) :
  selectChanges storyId (world s) = (Data current, w1) ->
  updateChanges storyId
    (current ++ [Change.mk (toString (now w1)) ty d]) w1 = (Error message, w2) ->
  after (addChange storyId ty d) s =
  after (setErrorMessage "Error adding change") (mkSession w2 (view s)).
Proof.
  intros H1 H2; unfold after, addChange, bind, await, dateNow; rewrite H1.
  cbn [world view]; now rewrite H2.
Qed.

Lemma addChange_done (storyId : string) (ty : ChangeType) (d : Details)
  (s : Session) (current : list Change.t) (w1 w2 : World) :
  selectChanges storyId (world s) = (Data current, w1) ->
  updateChanges storyId
    (current ++ [Change.mk (toString (now w1)) ty d]) w1 = (Data tt, w2) ->
  after (addChange storyId ty d) s =
  after (setUserStories
           (replaceCached storyId
              (current ++ [Change.mk (toString (now w1)) ty d])))
        (mkSession w2 (view s)).
Proof.
  intros H1 H2; unfold after, addChange, bind, await, dateNow; rewrite H1.
  cbn [world view]; now rewrite H2.
Qed.

Lemma removeChange_fetch_error (storyId changeId : string) (s : Session)
  (message : string) (w1 : World) :
  selectChanges storyId (world s) = (Error message, w1) ->
  after (removeChange storyId changeId) s =
  after (setErrorMessage "Error fetching user story") (mkSession w1 (view s)).
Proof.
  intros H; unfold after, removeChange, bind, await; now rewrite H.
Qed.

Lemma removeChange_update_error (storyId changeId : string) (s : Session)
  (current : list Change.t) (message : string) (w1 w2 : World) :
  selectChanges storyId (world s) = (Data current, w1) ->
  updateChanges storyId
    (filter (fun change => negb (Change.id change =? changeId)) current) w1 =
  (Error message, w2) ->
  after (removeChange storyId changeId) s =
  after (setErrorMessage "Error removing change") (mkSession w2 (view s)).
Proof.
  intros H1 H2; unfold after, removeChange, bind, await; rewrite H1.
  cbn [world view]; now rewrite H2.
Qed.

Lemma removeChange_done (storyId changeId : string) (s : Session)
  (current : list Change.t) (w1 w2 : World) :
  selectChanges storyId (world s) = (Data current, w1) ->
  updateChanges storyId
    (filter (fun change => negb (Change.id change =? changeId)) current) w1 =
  (Data tt, w2) ->
  after (removeChange storyId changeId) s =
  after (setUserStories
           (replaceCached storyId
              (filter (fun change => negb (Change.id change =? changeId))
                      current)))
        (mkSession w2 (view s)).
Proof.
  intros H1 H2; unfold after, removeChange, bind, await; rewrite H1.
  cbn [world view]; now rewrite H2.
Qed.

(** ** Change Log Editor *)

(** C1. [handleAddChange] validates the form first.  A rejected form sets
    the validation message and sends no request: the remote side, its log
    included, is as before.  An accepted form reads the current changes of
    the story, appends one record [{id: Date.now().toString(), type,
    details}] at the end, writes the whole list back, and hands that list to
    the story cache: the two requests are logged in this order, every row
    and every cached story with this id now carries the new list. *)
Theorem handleAddChange_validates_then_appends :
  forall (storyId : string) (f : ChangeForm.state) (s : Session),
    (forall message : string,
        ChangeForm.validate f = ChangeForm.Rejected message ->
        ChangeForm.handleAddChange storyId f s =
        (f, after (setErrorMessage message) s)
        /\ world (after (ChangeForm.handleAddChange storyId f) s) = world s
        /\ userStories (view (after (ChangeForm.handleAddChange storyId f) s)) =
           userStories (view s)
        /\ errorMessage (view (after (ChangeForm.handleAddChange storyId f) s)) =
           message)
    /\ (forall (draft : Details) (current : list Change.t) (w1 w2 : World),
          ChangeForm.validate f = ChangeForm.Accepted draft ->
          selectChanges storyId (world s) = (Data current, w1) ->
          let next :=
            current ++
            [Change.mk (toString (now (world s))) (ChangeForm.changeType f) draft]
          in
          updateChanges storyId next w1 = (Data tt, w2) ->
          let s' := after (ChangeForm.handleAddChange storyId f) s in
          log (world s') =
          log (world s) ++ [SelectChanges storyId; UpdateChanges storyId next]
          /\ table (world s') = overwritten storyId next (table (world s))
          /\ (forall story : UserStory.t,
                In story (table (world s')) -> UserStory.id story = storyId ->
                UserStory.changes story = next)
          /\ userStories (view s') =
             replaceCached storyId next (userStories (view s))
          /\ (forall story : UserStory.t,
                In story (userStories (view s')) ->
                UserStory.id story = storyId ->
                UserStory.changes story = next)
          /\ errorMessage (view s') = errorMessage (view s)).
Proof.
  intros storyId f s; split.
  - intros message Hv; unfold after, ChangeForm.handleAddChange; rewrite Hv.
    unfold bind, ret, setErrorMessage; simpl; auto.
  - intros draft current w1 w2 Hv Hsel next Hupd s'.
    destruct (selectChanges_Data _ _ _ _ Hsel) as [Hw1 _].
    pose proof (transport_table (SelectChanges storyId) (world s))
      as [Ht1 [Hn1 Hl1]].
    rewrite <- Hw1 in Ht1, Hn1, Hl1.
    assert (Hnext : next =
              current ++
              [Change.mk (toString (now w1)) (ChangeForm.changeType f) draft])
      by (unfold next; now rewrite Hn1).
    rewrite Hnext in Hupd.
    destruct (updateChanges_Data _ _ _ _ _ Hupd) as [Ht2 [_ Hl2]].
    assert (Hs' : s' =
              after (setUserStories (replaceCached storyId next))
                    (mkSession w2 (view s))).
    { unfold s', after, ChangeForm.handleAddChange; rewrite Hv.
      unfold bind at 1; unfold ret.
      pose proof (addChange_done storyId (ChangeForm.changeType f) draft s
                    current w1 w2 Hsel Hupd) as Hdone.
      unfold after in Hdone.
      destruct (addChange storyId (ChangeForm.changeType f) draft s) as [u s1].
      simpl in *; now rewrite Hdone, Hnext. }
    rewrite Hs'; unfold after, setUserStories; simpl.
    assert (Htable : table w2 = overwritten storyId next (table (world s)))
      by (rewrite Ht2, Ht1, Hnext; reflexivity).
    repeat split.
    + rewrite Hl2, Hl1, <- app_assoc, Hnext; reflexivity.
    + exact Htable.
    + intros story Hin; rewrite Htable in Hin.
      now apply (overwritten_In _ _ _ _ Hin).
    + intros story Hin; rewrite replaceCached_overwritten in Hin.
      now apply (overwritten_In _ _ _ _ Hin).
Qed.

(** C4. [removeChange] reads the current changes of the story, filters out
    the entries whose id is [changeId], writes the result back and hands it
    to the story cache: the row of the story, and every cached story with
    its id, then has the filtered list as its changes.  When no entry has
    that id the list written back and handed over is the list that was
    read, and the row and the cached stories have it as their changes. *)
Theorem removeChange_filters_matching_id :
  forall (storyId changeId : string) (s : Session) (current : list Change.t)
         (w1 w2 : World),
    selectChanges storyId (world s) = (Data current, w1) ->
    let next :=
      filter (fun change => negb (Change.id change =? changeId)) current in
    updateChanges storyId next w1 = (Data tt, w2) ->
    let s' := after (removeChange storyId changeId) s in
    log (world s') =
    log (world s) ++ [SelectChanges storyId; UpdateChanges storyId next]
    /\ table (world s') = overwritten storyId next (table (world s))
    /\ userStories (view s') = replaceCached storyId next (userStories (view s))
    /\ (forall change : Change.t,
          In change next <-> In change current /\ Change.id change <> changeId)
    /\ ((forall change : Change.t,
           In change current -> Change.id change <> changeId) ->
        next = current)
    /\ (exists row : UserStory.t,
          filter (hasId storyId) (table (world s')) = [row]
          /\ UserStory.changes row = next)
    /\ (forall story : UserStory.t,
          In story (table (world s')) -> UserStory.id story = storyId ->
          UserStory.changes story = next)
    /\ (forall story : UserStory.t,
          In story (userStories (view s')) -> UserStory.id story = storyId ->
          UserStory.changes story = next)
    /\ ((forall change : Change.t,
           In change current -> Change.id change <> changeId) ->
        forall story : UserStory.t,
          In story (table (world s')) \/ In story (userStories (view s')) ->
          UserStory.id story = storyId ->
          UserStory.changes story = current).
Proof.
  intros storyId changeId s current w1 w2 Hsel next Hupd s'.
  destruct (selectChanges_Data _ _ _ _ Hsel) as [Hw1 [row [Hrow _]]].
  pose proof (transport_table (SelectChanges storyId) (world s))
    as [Ht1 [_ Hl1]].
  rewrite <- Hw1 in Ht1, Hl1.
  destruct (updateChanges_Data _ _ _ _ _ Hupd) as [Ht2 [_ Hl2]].
  unfold s'; rewrite (removeChange_done _ _ _ _ _ _ Hsel Hupd).
  unfold after, setUserStories; simpl.
  assert (Htable : table w2 = overwritten storyId next (table (world s)))
    by (rewrite Ht2, Ht1; reflexivity).
  assert (Hnoop : (forall change : Change.t,
                      In change current -> Change.id change <> changeId) ->
                  next = current).
  { intros Hnone; unfold next; apply forallb_filter_id, forallb_forall.
    intros change Hin; apply negb_true_iff, String.eqb_neq; auto. }
  assert (Hrows : forall story : UserStory.t,
             In story (table w2) -> UserStory.id story = storyId ->
             UserStory.changes story = next).
  { intros story Hin; rewrite Htable in Hin.
    exact (overwritten_In _ _ _ _ Hin). }
  assert (Hcached : forall story : UserStory.t,
             In story (replaceCached storyId next (userStories (view s))) ->
             UserStory.id story = storyId ->
             UserStory.changes story = next).
  { intros story Hin; rewrite replaceCached_overwritten in Hin.
    exact (overwritten_In _ _ _ _ Hin). }
  split; [rewrite Hl2, Hl1, <- app_assoc; reflexivity|].
  split; [exact Htable|].
  split; [reflexivity|].
  split.
  { intros change; unfold next; rewrite filter_In, negb_true_iff.
    now rewrite String.eqb_neq. }
  split; [exact Hnoop|].
  split.
  { exists (UserStory.withChanges row next); split; [|reflexivity].
    rewrite Htable, filter_hasId_overwritten, Hrow; reflexivity. }
  split; [exact Hrows|].
  split; [exact Hcached|].
  intros Hnone story [Hin|Hin] Hid; rewrite <- (Hnoop Hnone); auto.
Qed.

(** C2. When the read of the current changes fails, or the write of the
    updated changes fails, [addChange] and [removeChange] only set the
    error message: the cached stories, and every other state variable of
    the component, are what they were before the call. *)
Theorem change_log_errors_leave_cache_untouched :
  forall (storyId : string) (s : Session),
    (forall (ty : ChangeType) (d : Details) (message : string) (w1 : World),
        selectChanges storyId (world s) = (Error message, w1) ->
        let s' := after (addChange storyId ty d) s in
        view s' = view (after (setErrorMessage "Error fetching user story") s)
        /\ userStories (view s') = userStories (view s)
        /\ table (world s') = table (world s))
    /\ (forall (ty : ChangeType) (d : Details) (current : list Change.t)
               (message : string) (w1 w2 : World),
          selectChanges storyId (world s) = (Data current, w1) ->
          updateChanges storyId
            (current ++ [Change.mk (toString (now (world s))) ty d]) w1 =
          (Error message, w2) ->
          let s' := after (addChange storyId ty d) s in
          view s' = view (after (setErrorMessage "Error adding change") s)
          /\ userStories (view s') = userStories (view s)
          /\ table (world s') = table (world s))
    /\ (forall (changeId message : string) (w1 : World),
          selectChanges storyId (world s) = (Error message, w1) ->
          let s' := after (removeChange storyId changeId) s in
          view s' = view (after (setErrorMessage "Error fetching user story") s)
          /\ userStories (view s') = userStories (view s)
          /\ table (world s') = table (world s))
    /\ (forall (changeId : string) (current : list Change.t)
               (message : string) (w1 w2 : World),
          selectChanges storyId (world s) = (Data current, w1) ->
          updateChanges storyId
            (filter (fun change => negb (Change.id change =? changeId)) current)
            w1 = (Error message, w2) ->
          let s' := after (removeChange storyId changeId) s in
          view s' = view (after (setErrorMessage "Error removing change") s)
          /\ userStories (view s') = userStories (view s)
          /\ table (world s') = table (world s)).
Proof.
  intros storyId s.
  pose proof (transport_table (SelectChanges storyId) (world s))
    as [Ht1 [Hn1 _]].
  pose proof (selectChanges_world storyId (world s)) as Hw.
  split; [|split; [|split]].
  - intros ty d message w1 Hsel s'; unfold s'.
    rewrite (addChange_fetch_error _ _ _ _ _ _ Hsel).
    rewrite Hsel in Hw; simpl in Hw; subst w1.
    unfold after, setErrorMessage; simpl; auto.
  - intros ty d current message w1 w2 Hsel Hupd s'; unfold s'.
    rewrite Hsel in Hw; simpl in Hw; rewrite <- Hw in Ht1, Hn1.
    rewrite <- Hn1 in Hupd.
    rewrite (addChange_update_error _ _ _ _ _ _ _ _ Hsel Hupd).
    destruct (updateChanges_Error _ _ _ _ _ Hupd) as [Ht2 _].
    unfold after, setErrorMessage; simpl; rewrite Ht2; auto.
  - intros changeId message w1 Hsel s'; unfold s'.
    rewrite (removeChange_fetch_error _ _ _ _ _ Hsel).
    rewrite Hsel in Hw; simpl in Hw; subst w1.
    unfold after, setErrorMessage; simpl; auto.
  - intros changeId current message w1 w2 Hsel Hupd s'; unfold s'.
    rewrite Hsel in Hw; simpl in Hw; rewrite <- Hw in Ht1.
    rewrite (removeChange_update_error _ _ _ _ _ _ _ Hsel Hupd).
    destruct (updateChanges_Error _ _ _ _ _ Hupd) as [Ht2 _].
    unfold after, setErrorMessage; simpl; rewrite Ht2; auto.
Qed.

(** *** Append, then remove *)

Lemma overwritten_restore (id : string) (changes other : list Change.t)
  (rows : list UserStory.t) :
  (forall r : UserStory.t,
      In r rows -> hasId id r = true -> UserStory.changes r = changes) ->
  overwritten id changes (overwritten id other rows) = rows.
Proof.
  unfold overwritten; induction rows as [|r rows IH]; intros H; simpl;
    [reflexivity|].
  rewrite IH by (intros r' Hin; apply H; now right); f_equal.
  destruct (hasId id r) eqn:E.
  - unfold hasId in *; rewrite withChanges_id, E.
    rewrite <- (H r (or_introl eq_refl) E); now destruct r.
  - now rewrite E.
Qed.

Lemma single_row_changes (id : string) (rows : list UserStory.t)
  (story : UserStory.t) :
  filter (hasId id) rows = [story] ->
  forall r : UserStory.t,
    In r rows -> hasId id r = true ->
    UserStory.changes r = UserStory.changes story.
Proof.
  intros Hrow r Hin Hid.
  assert (Hr : In r (filter (hasId id) rows)) by (apply filter_In; auto).
  rewrite Hrow in Hr; destruct Hr as [->|[]]; reflexivity.
Qed.

Lemma filter_out_appended (changes : list Change.t) (c : Change.t) :
  (forall change : Change.t,
      In change changes -> Change.id change <> Change.id c) ->
  filter (fun change => negb (Change.id change =? Change.id c))
         (changes ++ [c]) = changes.
Proof.
  intros Hfresh; rewrite filter_app; simpl.
  rewrite String.eqb_refl; simpl; rewrite app_nil_r.
  apply forallb_filter_id, forallb_forall.
  intros change Hin; apply negb_true_iff, String.eqb_neq; auto.
Qed.

(** C3, as stated, fails: when the clock reading that names the new change
    is already the id of a stored change, removing by the new id removes
    both, and the stored sequence ends up shorter than it was before the
    append. *)
Lemma append_remove_loses_change_on_id_collision :
  let before := collidingSession in
  let newId := toString (now (world before)) in
  let s1 := after (addChange "s1" Field fooDraft) before in
  let s2 := after (removeChange "s1" newId) s1 in
  map UserStory.changes (table (world before)) = [[earlierChange]]
  /\ map UserStory.changes (table (world s1)) =
     [[earlierChange; Change.mk newId Field fooDraft]]
  /\ map UserStory.changes (table (world s2)) = [[]]
  /\ table (world s2) <> table (world before)
  /\ errorMessage (view s2) = "".
Proof.
  vm_compute; repeat split; discriminate.
Qed.

(** C3, amended. When the requests succeed, the story is the one row with
    its id, and no change of the story already has the id that the clock
    gives to the new one, then [addChange] followed by [removeChange] with
    that id leaves the table as it was before the append, and the cached
    copies of the story carry the stored changes again. *)
Theorem append_then_remove_restores_changes :
  forall (storyId : string) (ty : ChangeType) (d : Details) (s : Session)
         (story : UserStory.t),
    Reliable (world s) ->
    filter (hasId storyId) (table (world s)) = [story] ->
    (forall change : Change.t,
        In change (UserStory.changes story) ->
        Change.id change <> toString (now (world s))) ->
    let newId := toString (now (world s)) in
    let s1 := after (addChange storyId ty d) s in
    let s2 := after (removeChange storyId newId) s1 in
    filter (hasId storyId) (table (world s1)) =
      [UserStory.withChanges story
         (UserStory.changes story ++ [Change.mk newId ty d])]
    /\ table (world s2) = table (world s)
    /\ (forall cached : UserStory.t,
          In cached (userStories (view s2)) ->
          UserStory.id cached = storyId ->
          UserStory.changes cached = UserStory.changes story)
    /\ errorMessage (view s2) = errorMessage (view s).
Proof.
  intros storyId ty d s story Hrel Hrow Hfresh newId s1 s2.
  set (next := UserStory.changes story ++ [Change.mk newId ty d]).
  (* the append *)
  pose proof (selectChanges_Reliable _ _ _ Hrel Hrow) as Hsel.
  destruct (transport_Reliable (SelectChanges storyId) _ Hrel) as [_ Hrel1].
  pose proof (transport_table (SelectChanges storyId) (world s))
    as [Ht1 [Hn1 _]].
  set (w1 := snd (transport (SelectChanges storyId) (world s))) in *.
  destruct (updateChanges_Reliable storyId next w1 Hrel1)
    as [w2 [Hupd [Hrel2 [Ht2 Hn2]]]].
  assert (Hs1 : s1 = after (setUserStories (replaceCached storyId next))
                           (mkSession w2 (view s))).
  { unfold s1.
    rewrite (addChange_done storyId ty d s (UserStory.changes story) w1 w2 Hsel);
      rewrite Hn1; [reflexivity|exact Hupd]. }
  assert (Hrow1 : filter (hasId storyId) (table w2) =
                  [UserStory.withChanges story next]).
  { rewrite Ht2, filter_hasId_overwritten, Ht1, Hrow; reflexivity. }
  (* the removal *)
  assert (Hw1 : world s1 = w2) by (rewrite Hs1; reflexivity).
  pose proof (selectChanges_Reliable _ _ _ Hrel2 Hrow1) as Hsel2.
  rewrite withChanges_changes in Hsel2.
  destruct (transport_Reliable (SelectChanges storyId) _ Hrel2) as [_ Hrel3].
  pose proof (transport_table (SelectChanges storyId) w2) as [Ht3 _].
  set (w3 := snd (transport (SelectChanges storyId) w2)) in *.
  assert (Hback : filter (fun change => negb (Change.id change =? newId)) next =
                  UserStory.changes story)
    by (apply (filter_out_appended _ (Change.mk newId ty d)); exact Hfresh).
  destruct (updateChanges_Reliable storyId (UserStory.changes story) w3 Hrel3)
    as [w4 [Hupd2 [_ [Ht4 _]]]].
  assert (Hs2 : s2 = after (setUserStories
                              (replaceCached storyId (UserStory.changes story)))
                           (mkSession w4 (view s1))).
  { unfold s2; rewrite <- Hw1 in Hsel2.
    rewrite (removeChange_done storyId newId s1 next w3 w4 Hsel2);
      rewrite Hback; [reflexivity|exact Hupd2]. }
  split; [rewrite Hw1; exact Hrow1|].
  rewrite Hs2, Hs1; unfold after, setUserStories; simpl.
  split; [|split; [|reflexivity]].
  - rewrite Ht4, Ht3, Ht2, Ht1.
    apply overwritten_restore, (single_row_changes _ _ _ Hrow).
  - intros cached Hin; rewrite replaceCached_overwritten in Hin.
    now apply (overwritten_In _ _ _ _ Hin).
Qed.

(** ** Change Codec: the Permission form *)

(** C5, as stated, fails: a Permission form that has a date and one of the
    two names is still rejected. *)
Lemma validate_rejects_permission_with_one_name :
  ChangeForm.changeType permissionSetOnlyForm = Permission
  /\ ChangeForm.date permissionSetOnlyForm <> ""
  /\ ~ (ChangeForm.permissionSet permissionSetOnlyForm = ""
        /\ ChangeForm.permission permissionSetOnlyForm = "")
  /\ ChangeForm.validate permissionSetOnlyForm =
     ChangeForm.Rejected
       "Please fill in all required fields for Permission Change.".
Proof.
  repeat split; try discriminate.
  intros [H _]; discriminate H.
Qed.

Lemma truthy_false_iff (x : string) : truthy x = false <-> x = "".
Proof. destruct x; simpl; split; congruence. Qed.

(** C5, amended. A Permission form is rejected exactly when the date, the
    permission set or the permission is empty: both names are required.  An
    accepted form yields the Permission record of its fields, with the two
    access flags as the check boxes hold them; they hold [false] in a fresh
    form, after a reset, and as long as only the text fields are edited. *)
Theorem validate_permission_requires_both_names :
  forall f : ChangeForm.state,
    ChangeForm.changeType f = Permission ->
    ((exists message : string,
         ChangeForm.validate f = ChangeForm.Rejected message) <->
     ChangeForm.date f = "" \/ ChangeForm.permissionSet f = ""
     \/ ChangeForm.permission f = "")
    /\ (forall d : Details,
          ChangeForm.validate f = ChangeForm.Accepted d ->
          d = OfPermission
                (PermissionChange.mk (ChangeForm.date f)
                   (ChangeForm.permissionSet f) (ChangeForm.permission f)
                   (Access.mk (ChangeForm.readAccess f)
                              (ChangeForm.writeAccess f))
                   (ChangeForm.note f)))
    /\ ChangeForm.readAccess ChangeForm.initial = false
    /\ ChangeForm.writeAccess ChangeForm.initial = false
    /\ ChangeForm.readAccess (ChangeForm.reset f) = false
    /\ ChangeForm.writeAccess (ChangeForm.reset f) = false
    /\ (forall date permissionSet permission note : string,
          let typed :=
            ChangeForm.setNote note
              (ChangeForm.setPermission permission
                 (ChangeForm.setPermissionSet permissionSet
                    (ChangeForm.setDate date
                       (ChangeForm.setChangeType Permission
                          (ChangeForm.reset f))))) in
          date <> "" /\ permissionSet <> "" /\ permission <> "" ->
          ChangeForm.validate typed =
          ChangeForm.Accepted
            (OfPermission
               (PermissionChange.mk date permissionSet permission
                  (Access.mk false false) note))).
Proof.
  intros f Hty; unfold ChangeForm.validate; rewrite Hty.
  split; [|split].
  - rewrite <- !truthy_false_iff.
    destruct (truthy (ChangeForm.date f)),
             (truthy (ChangeForm.permissionSet f)),
             (truthy (ChangeForm.permission f)); simpl;
      split; intros H;
      try (destruct H as [m H]; discriminate H);
      try (destruct H as [H|[H|H]]; discriminate H);
      try (eexists; reflexivity); auto.
  - intros d.
    destruct (truthy (ChangeForm.date f)),
             (truthy (ChangeForm.permissionSet f)),
             (truthy (ChangeForm.permission f)); simpl;
      intros H; inversion H; reflexivity.
  - do 4 (split; [reflexivity|]).
    intros date permissionSet permission note [Hd [Hps Hp]].
    destruct date, permissionSet, permission; try contradiction; reflexivity.
Qed.

(** ** Session Gate *)

(** The cache across a sign-out: signing out keeps the cached stories, and
    when the fetch of the next user fails they are still cached, and
    rendered, under that user. *)
Lemma sign_out_keeps_cache_for_next_user :
  let s1 := after (authListener (Some alice)) signedOutSession in
  let s2 := after handleLogout s1 in
  let s3 := after (authListener (Some bob)) s2 in
  userStories (view s1) = [aliceStory]
  /\ currentUser (view s2) = None
  /\ userStories (view s2) = [aliceStory]
  /\ currentUser (view s3) = Some bob
  /\ userStories (view s3) = [aliceStory]
  /\ renderedStories (view s3) = [aliceStory]
  /\ UserStory.userId aliceStory <> User.id bob.
Proof.
  vm_compute; repeat split; discriminate.
Qed.

(** C6 does not hold of the code.  Alice signs in and her story is fetched;
    she signs out, which leaves the cache as it is; Bob signs in.  When the
    callback of the auth listener has set Bob as the current user and the
    fetch has not answered yet, Alice's story is rendered under Bob; when
    the fetch then fails, it stays cached and rendered under Bob.  The fetch
    itself is scoped by [userId] and the stories are hidden while nobody is
    signed in, but nothing ever clears the cache. *)
Theorem stale_cache_is_rendered_for_the_next_user :
  let s1 := after (authListener (Some alice)) signedOutSession in
  let s2 := after handleLogout s1 in
  let arriving := after (setCurrentUser (Some bob)) s2 in
  let s3 := after fetchUserStories arriving in
  userStories (view s1) = [aliceStory]
  /\ currentUser (view s2) = None
  /\ userStories (view s2) = [aliceStory]
  /\ currentUser (view arriving) = Some bob
  /\ renderedStories (view arriving) = [aliceStory]
  /\ s3 = after (authListener (Some bob)) s2
  /\ currentUser (view s3) = Some bob
  /\ userStories (view s3) = [aliceStory]
  /\ renderedStories (view s3) = [aliceStory]
  /\ UserStory.userId aliceStory <> User.id bob.
Proof.
  vm_compute; repeat split; discriminate.
Qed.

Lemma selectStories_Data (userId : string) (w w1 : World)
  (data : list UserStory.t) :
  selectStories userId w = (Data data, w1) ->
  data = filter (fun story => UserStory.userId story =? userId) (table w).
Proof.
  unfold selectStories; intros H.
  pose proof (transport_table (SelectStories userId) w) as [Ht _].
  destruct (transport (SelectStories userId) w) as [[m|] w']; simpl in *;
    [discriminate|].
  inversion H; subst; now rewrite Ht.
Qed.

(** What the session gate does establish.  A successful [fetchUserStories]
    replaces the cache by the rows whose [userId] is the id of the signed-in
    user, so every cached story then belongs to that user and a list under
    one user returns no story of another; a failed fetch leaves the cache
    as it was.  Signing out sets the current user to none and keeps the
    cache: no story is rendered until somebody signs in again. *)
Theorem fetch_scopes_cache_and_sign_out_hides_it :
  forall (s : Session) (u : User.t),
    currentUser (view s) = Some u ->
    (forall (data : list UserStory.t) (w1 : World),
        selectStories (User.id u) (world s) = (Data data, w1) ->
        let s' := after fetchUserStories s in
        userStories (view s') =
          filter (fun story => UserStory.userId story =? User.id u)
                 (table (world s))
        /\ (forall story : UserStory.t,
              In story (userStories (view s')) ->
              UserStory.userId story = User.id u)
        /\ (forall story : UserStory.t,
              In story (table (world s)) ->
              UserStory.userId story <> User.id u ->
              ~ In story (userStories (view s'))))
    /\ (forall (message : string) (w1 : World),
          selectStories (User.id u) (world s) = (Error message, w1) ->
          view (after fetchUserStories s) = view s)
    /\ (let s' := after (authListener None) s in
        currentUser (view s') = None
        /\ userStories (view s') = userStories (view s)
        /\ renderedStories (view s') = []
        /\ world s' = world s)
    /\ (forall w1 : World,
          signOut (world s) = (Data tt, w1) ->
          let s' := after handleLogout s in
          currentUser (view s') = None
          /\ userStories (view s') = userStories (view s)
          /\ renderedStories (view s') = []).
Proof.
  intros s u Hu; split; [|split; [|split]].
  - intros data w1 Hsel s'.
    assert (Hs' : userStories (view s') = data).
    { unfold s', after, fetchUserStories, bind, getView, await.
      rewrite Hu, Hsel; reflexivity. }
    rewrite Hs', (selectStories_Data _ _ _ _ Hsel).
    split; [reflexivity|split].
    + intros story Hin; apply filter_In in Hin.
      now apply String.eqb_eq.
    + intros story _ Hne Hin; apply filter_In in Hin.
      apply Hne; now apply String.eqb_eq.
  - intros message w1 Hsel.
    unfold after, fetchUserStories, bind, getView, await.
    rewrite Hu, Hsel; reflexivity.
  - repeat split.
  - intros w1 Hout s'.
    unfold s', after, handleLogout, bind, await; rewrite Hout.
    repeat split.
Qed.

(** ** Story Repository: deleting a story *)





(** ** Two appends on one event loop *)

Lemma toString_inj (m n : N) : toString m = toString n -> m = n.
Proof.
  unfold toString; intros H.
  assert (Hu : Some (N.to_uint m) = Some (N.to_uint n))
    by (rewrite <- !NilEmpty.usu; now rewrite H).
  inversion Hu as [Hd].
  rewrite <- (DecimalN.Unsigned.of_to m), <- (DecimalN.Unsigned.of_to n).
  now rewrite Hd.
Qed.

(** [addChange] is its task resumed twice. *)
Lemma addChange_as_task (storyId : string) (ty : ChangeType) (d : Details)
  (s : Session) :
  run [Resume 0; Resume 0] [AwaitingSelect storyId ty d] s =
  ([Settled], after (addChange storyId ty d) s).
Proof.
  unfold after, run, step, addChange, bind, ret, await, dateNow; simpl.
  unfold bind, await, dateNow, ret.
  destruct (selectChanges storyId (world s)) as [[current|m] w1]; simpl;
    [|reflexivity].
  unfold bind, await, ret; simpl.
  destruct (updateChanges storyId _ w1) as [[u|m] w2]; reflexivity.
Qed.

Lemma resume_select_Reliable (storyId : string) (ty : ChangeType) (d : Details)
  (s : Session) (story : UserStory.t) :
  Reliable (world s) ->
  filter (hasId storyId) (table (world s)) = [story] ->
  resume (AwaitingSelect storyId ty d) s =
  (AwaitingUpdate storyId
     (UserStory.changes story ++ [Change.mk (toString (now (world s))) ty d]),
   mkSession (snd (transport (SelectChanges storyId) (world s))) (view s)).
Proof.
  intros Hrel Hrow; unfold resume, bind, await, dateNow, ret.
  rewrite (selectChanges_Reliable _ _ _ Hrel Hrow); simpl.
  pose proof (transport_table (SelectChanges storyId) (world s)) as [_ [Hn _]].
  now rewrite Hn.
Qed.

Lemma updateChanges_Reliable_snd (id : string) (changes : list Change.t)
  (w : World) :
  Reliable w ->
  updateChanges id changes w = (Data tt, snd (updateChanges id changes w))
  /\ Reliable (snd (updateChanges id changes w))
  /\ table (snd (updateChanges id changes w)) =
     overwritten id changes (table w).
Proof.
  intros Hrel.
  destruct (updateChanges_Reliable id changes w Hrel) as [w2 [-> [H1 [H2 _]]]].
  auto.
Qed.

Lemma resume_update_Reliable (storyId : string) (changes : list Change.t)
  (s : Session) :
  Reliable (world s) ->
  resume (AwaitingUpdate storyId changes) s =
  (Settled,
   after (setUserStories (replaceCached storyId changes))
         (mkSession (snd (updateChanges storyId changes (world s))) (view s))).
Proof.
  intros Hrel.
  destruct (updateChanges_Reliable_snd storyId changes (world s) Hrel)
    as [Hupd _].
  unfold resume, bind, await, ret, after; rewrite Hupd; reflexivity.
Qed.

Lemma run_cons (e : Event) (rest : list Event) (tasks : list AddChangeTask)
  (s : Session) :
  run (e :: rest) tasks s =
  run rest (fst (step e tasks s)) (snd (step e tasks s)).
Proof.
  cbn [run]; unfold bind; destruct (step e tasks s); reflexivity.
Qed.

(** What one event does to a reliable remote side. *)
Lemma step_Clock (t : N) (tasks : list AddChangeTask) (s : Session) :
  Reliable (world s) ->
  exists s' : Session,
    step (Clock t) tasks s = (tasks, s')
    /\ Reliable (world s')
    /\ table (world s') = table (world s)
    /\ now (world s') = t.
Proof.
  intros Hrel; exists (after (setClock t) s); repeat split; exact Hrel.
Qed.

Lemma step_read (i : nat) (tasks : list AddChangeTask) (s : Session)
  (storyId : string) (ty : ChangeType) (d : Details) (story : UserStory.t) :
  Reliable (world s) ->
  filter (hasId storyId) (table (world s)) = [story] ->
  nth_error tasks i = Some (AwaitingSelect storyId ty d) ->
  exists s' : Session,
    step (Resume i) tasks s =
    (setNth i
       (AwaitingUpdate storyId
          (UserStory.changes story ++
           [Change.mk (toString (now (world s))) ty d])) tasks, s')
    /\ Reliable (world s')
    /\ table (world s') = table (world s).
Proof.
  intros Hrel Hrow Hnth.
  exists (mkSession (snd (transport (SelectChanges storyId) (world s)))
                    (view s)).
  unfold step; rewrite Hnth; unfold bind at 1.
  rewrite (resume_select_Reliable _ _ _ _ story Hrel Hrow).
  split; [reflexivity|]; simpl; split.
  - apply transport_Reliable, Hrel.
  - apply transport_table.
Qed.

Lemma step_write (i : nat) (tasks : list AddChangeTask) (s : Session)
  (storyId : string) (changes : list Change.t) :
  Reliable (world s) ->
  nth_error tasks i = Some (AwaitingUpdate storyId changes) ->
  exists s' : Session,
    step (Resume i) tasks s = (setNth i Settled tasks, s')
    /\ Reliable (world s')
    /\ table (world s') = overwritten storyId changes (table (world s)).
Proof.
  intros Hrel Hnth.
  destruct (updateChanges_Reliable_snd storyId changes (world s) Hrel)
    as [_ [Hrel2 Ht2]].
  eexists; unfold step; rewrite Hnth; unfold bind at 1.
  rewrite (resume_update_Reliable _ _ _ Hrel).
  split; [reflexivity|]; split; assumption.
Qed.

(** One event of a schedule, on a remote side known to be reliable ([Hrel])
    and whose table is known ([Ht]); [s'] names the session it leaves. *)
Ltac tick Hrel Ht s' Hrel' Ht' Hnow :=
  let E := fresh "E" in
  rewrite run_cons;
  match goal with
  | |- context [step (Clock ?t) ?tasks ?s] =>
      destruct (step_Clock t tasks s Hrel) as [s' [E [Hrel' [Ht' Hnow]]]];
      rewrite E; cbn [fst snd]; try rewrite Ht in Ht'
  end.

Ltac read Hrel Ht Hrow s' Hrel' Ht' :=
  let E := fresh "E" in
  rewrite run_cons;
  match goal with
  | |- context [step (Resume ?i) ?tasks ?s] =>
      destruct (step_read i tasks s _ _ _ _ Hrel
                  ltac:(rewrite Ht; exact Hrow) eq_refl)
        as [s' [E [Hrel' Ht']]];
      rewrite E; cbn [fst snd setNth]; try rewrite Ht in Ht'
  end.

(** The same, when the row of the story is known for the current session. *)
Ltac read_row Hrel Hrow s' Hrel' Ht' :=
  let E := fresh "E" in
  rewrite run_cons;
  match goal with
  | |- context [step (Resume ?i) ?tasks ?s] =>
      destruct (step_read i tasks s _ _ _ _ Hrel Hrow eq_refl)
        as [s' [E [Hrel' Ht']]];
      rewrite E; cbn [fst snd setNth]
  end.

Ltac write Hrel Ht s' Hrel' Ht' :=
  let E := fresh "E" in
  rewrite run_cons;
  match goal with
  | |- context [step (Resume ?i) ?tasks ?s] =>
      destruct (step_write i tasks s _ _ Hrel eq_refl)
        as [s' [E [Hrel' Ht']]];
      rewrite E; cbn [fst snd setNth]; try rewrite Ht in Ht'
  end.

Lemma racing_reads (storyId : string) (s : Session) (story : UserStory.t)
  (ty1 ty2 : ChangeType) (d1 d2 : Details) (t1 t2 : N) :
  Reliable (world s) ->
  filter (hasId storyId) (table (world s)) = [story] ->
  fst (run [Clock t1; Resume 0; Clock t2; Resume 1]
           [AwaitingSelect storyId ty1 d1; AwaitingSelect storyId ty2 d2] s) =
  [AwaitingUpdate storyId
     (UserStory.changes story ++ [Change.mk (toString t1) ty1 d1]);
   AwaitingUpdate storyId
     (UserStory.changes story ++ [Change.mk (toString t2) ty2 d2])].
Proof.
  intros Hrel Hrow.
  assert (Ht : table (world s) = table (world s)) by reflexivity.
  tick Hrel Ht sa Hrela Hta Hnowa.
  read Hrela Hta Hrow sb Hrelb Htb.
  tick Hrelb Htb sc Hrelc Htc Hnowc.
  read Hrelc Htc Hrow sd Hreld Htd.
  cbn [run ret fst]; now rewrite Hnowa, Hnowc.
Qed.

Lemma racing_table (storyId : string) (s : Session) (story : UserStory.t)
  (ty1 ty2 : ChangeType) (d1 d2 : Details) (t1 t2 : N) :
  Reliable (world s) ->
  filter (hasId storyId) (table (world s)) = [story] ->
  exists s' : Session,
    run (racingSchedule t1 t2)
        [AwaitingSelect storyId ty1 d1; AwaitingSelect storyId ty2 d2] s =
    ([Settled; Settled], s')
    /\ table (world s') =
       overwritten storyId
         (UserStory.changes story ++ [Change.mk (toString t2) ty2 d2])
         (overwritten storyId
            (UserStory.changes story ++ [Change.mk (toString t1) ty1 d1])
            (table (world s))).
Proof.
  intros Hrel Hrow; unfold racingSchedule.
  assert (Ht : table (world s) = table (world s)) by reflexivity.
  tick Hrel Ht sa Hrela Hta Hnowa.
  read Hrela Hta Hrow sb Hrelb Htb.
  tick Hrelb Htb sc Hrelc Htc Hnowc.
  read Hrelc Htc Hrow sd Hreld Htd.
  write Hreld Htd se Hrele Hte.
  write Hrele Hte sf Hrelf Htf.
  eexists; split; [reflexivity|].
  now rewrite Htf, Hnowa, Hnowc.
Qed.

Lemma serial_table (storyId : string) (s : Session) (story : UserStory.t)
  (ty1 ty2 : ChangeType) (d1 d2 : Details) (t1 t2 : N) :
  Reliable (world s) ->
  filter (hasId storyId) (table (world s)) = [story] ->
  exists s' : Session,
    run (serialSchedule t1 t2)
        [AwaitingSelect storyId ty1 d1; AwaitingSelect storyId ty2 d2] s =
    ([Settled; Settled], s')
    /\ table (world s') =
       overwritten storyId
         (UserStory.changes story ++
          [Change.mk (toString t1) ty1 d1; Change.mk (toString t2) ty2 d2])
         (overwritten storyId
            (UserStory.changes story ++ [Change.mk (toString t1) ty1 d1])
            (table (world s))).
Proof.
  intros Hrel Hrow; unfold serialSchedule.
  assert (Ht : table (world s) = table (world s)) by reflexivity.
  tick Hrel Ht sa Hrela Hta Hnowa.
  read Hrela Hta Hrow sb Hrelb Htb.
  write Hrelb Htb sc Hrelc Htc.
  tick Hrelc Htc sd Hreld Htd Hnowd.
  assert (Hrow' : filter (hasId storyId) (table (world sd)) =
                  [UserStory.withChanges story
                     (UserStory.changes story ++
                      [Change.mk (toString (now (world sa))) ty1 d1])])
    by (rewrite Htd, filter_hasId_overwritten, Hrow; reflexivity).
  read_row Hreld Hrow' se Hrele Hte.
  rewrite Htd in Hte.
  write Hrele Hte sf Hrelf Htf.
  eexists; split; [reflexivity|].
  rewrite Htf, withChanges_changes, Hnowa, Hnowd, <- app_assoc; reflexivity.
Qed.

(** C8. Two [addChange] tasks on the same story, the second resumed with its
    read before the first is resumed with its write: both read the same
    current list, the second write overwrites the first, and the stored
    list ends as the current list followed by the second new entry only:
    the changes of the stored row hold the second new entry and not the
    first.  Run one after the other, the two tasks leave both entries in
    the changes of the stored row. *)
Theorem interleaved_appends_lose_first_entry :
  forall (storyId : string) (s : Session) (story : UserStory.t)
         (ty1 ty2 : ChangeType) (d1 d2 : Details) (t1 t2 : N),
    Reliable (world s) ->
    filter (hasId storyId) (table (world s)) = [story] ->
    (forall change : Change.t,
        In change (UserStory.changes story) ->
        Change.id change <> toString t1) ->
    t1 <> t2 ->
    let tasks :=
      [AwaitingSelect storyId ty1 d1; AwaitingSelect storyId ty2 d2] in
    let current := UserStory.changes story in
    let e1 := Change.mk (toString t1) ty1 d1 in
    let e2 := Change.mk (toString t2) ty2 d2 in
    fst (run (firstn 4 (racingSchedule t1 t2)) tasks s) =
      [AwaitingUpdate storyId (current ++ [e1]);
       AwaitingUpdate storyId (current ++ [e2])]
    /\ fst (run (racingSchedule t1 t2) tasks s) = [Settled; Settled]
    /\ filter (hasId storyId)
         (table (world (after (run (racingSchedule t1 t2) tasks) s))) =
       [UserStory.withChanges story (current ++ [e2])]
    /\ ~ In e1 (current ++ [e2])
    /\ filter (hasId storyId)
         (table (world (after (run (serialSchedule t1 t2) tasks) s))) =
       [UserStory.withChanges story (current ++ [e1; e2])]
    /\ (exists row : UserStory.t,
          filter (hasId storyId)
            (table (world (after (run (racingSchedule t1 t2) tasks) s))) =
          [row]
          /\ UserStory.changes row = current ++ [e2]
          /\ In e2 (UserStory.changes row)
          /\ ~ In e1 (UserStory.changes row))
    /\ (forall row : UserStory.t,
          In row (table (world (after (run (racingSchedule t1 t2) tasks) s))) ->
          UserStory.id row = storyId ->
          UserStory.changes row = current ++ [e2]
          /\ ~ In e1 (UserStory.changes row))
    /\ (exists row : UserStory.t,
          filter (hasId storyId)
            (table (world (after (run (serialSchedule t1 t2) tasks) s))) =
          [row]
          /\ UserStory.changes row = current ++ [e1; e2]
          /\ In e1 (UserStory.changes row)
          /\ In e2 (UserStory.changes row)).
Proof.
  intros storyId s story ty1 ty2 d1 d2 t1 t2 Hrel Hrow Hfresh Ht tasks
         current e1 e2.
  destruct (racing_table storyId s story ty1 ty2 d1 d2 t1 t2 Hrel Hrow)
    as [sr [Hrun Htable]].
  destruct (serial_table storyId s story ty1 ty2 d1 d2 t1 t2 Hrel Hrow)
    as [ss [Hrun' Htable']].
  assert (Hlost : ~ In e1 (current ++ [e2])).
  { rewrite in_app_iff; intros [Hin|[Heq|[]]].
    - exact (Hfresh e1 Hin eq_refl).
    - apply Ht; symmetry; apply toString_inj.
      exact (f_equal Change.id Heq). }
  split; [apply racing_reads; assumption|].
  unfold after, tasks; rewrite Hrun, Hrun'; cbn [fst snd].
  split; [reflexivity|].
  split; [rewrite Htable, !filter_hasId_overwritten, Hrow; reflexivity|].
  split; [exact Hlost|].
  split; [rewrite Htable', !filter_hasId_overwritten, Hrow; reflexivity|].
  split; [|split].
  - exists (UserStory.withChanges story (current ++ [e2])).
    split; [rewrite Htable, !filter_hasId_overwritten, Hrow; reflexivity|].
    rewrite withChanges_changes.
    split; [reflexivity|split; [|exact Hlost]].
    apply in_or_app; right; now left.
  - intros row Hin Hid; rewrite Htable in Hin.
    rewrite (overwritten_In _ _ _ _ Hin Hid); split; [reflexivity|exact Hlost].
  - exists (UserStory.withChanges story (current ++ [e1; e2])).
    split; [rewrite Htable', !filter_hasId_overwritten, Hrow; reflexivity|].
    rewrite withChanges_changes.
    split; [reflexivity|split; apply in_or_app; right; simpl; auto].
Qed.

(** * The properties at work on the example sessions *)

Lemma filterByNumber_on_threeStories :
  filterByNumber threeStories "US-1" = [aliceStory; collidingStory]
  /\ filterByNumber threeStories "us-1" = [].
Proof. split; reflexivity. Qed.

Lemma pageOf_slice_pageCount_ceiling_witness :
  pageOf threeStories 2 2 = [collidingStory]
  /\ pageOf threeStories 2 3 = []
  /\ IsCeiling 3 2 (pageCount 3 2).
Proof.
  pose proof (pageOf_slice_pageCount_ceiling threeStories 2 2
                ltac:(lia) ltac:(lia)) as [_ [Hpage [_ Hceil]]].
  pose proof (pageOf_slice_pageCount_ceiling threeStories 2 3
                ltac:(lia) ltac:(lia)) as [_ [_ [Hbeyond _]]].
  split; [exact Hpage|split].
  - apply Hbeyond; vm_compute; reflexivity.
  - apply (Hceil 3%Z); lia.
Defined.

Lemma handleAddChange_validates_then_appends_witness :
  let s' := after (ChangeForm.handleAddChange "s1" fooForm) laterSession in
  ChangeForm.validate fooForm = ChangeForm.Accepted fooDraft
  /\ log (world s') =
     [SelectChanges "s1";
      UpdateChanges "s1"
        [earlierChange; Change.mk "1704240000000" Field fooDraft]]
  /\ map UserStory.changes (userStories (view s')) =
     [[earlierChange; Change.mk "1704240000000" Field fooDraft]].
Proof.
  pose proof (proj2 (handleAddChange_validates_then_appends
                       "s1" fooForm laterSession)
                fooDraft [earlierChange]
                (snd (selectChanges "s1" (world laterSession)))
                (snd (updateChanges "s1"
                        [earlierChange;
                         Change.mk "1704240000000" Field fooDraft]
                        (snd (selectChanges "s1" (world laterSession)))))
                eq_refl eq_refl eq_refl) as [Hlog [_ [_ [Hcache _]]]].
  split; [reflexivity|split].
  - exact Hlog.
  - exact (f_equal (map UserStory.changes) Hcache).
Defined.

Lemma change_log_errors_leave_cache_untouched_witness :
  userStories (view (after (addChange "s1" Field fooDraft) offlineSession)) =
    [collidingStory]
  /\ errorMessage
       (view (after (addChange "s1" Field fooDraft) flakySession)) =
     "Error adding change"
  /\ userStories
       (view (after (removeChange "s1" "1704153600000") flakySession)) =
     [collidingStory].
Proof.
  destruct (change_log_errors_leave_cache_untouched "s1" offlineSession)
    as [Hfetch _].
  destruct (change_log_errors_leave_cache_untouched "s1" flakySession)
    as [_ [Hadd [_ Hremove]]].
  split; [|split].
  - exact (proj1 (proj2
      (Hfetch Field fooDraft "Failed to fetch"
         (snd (selectChanges "s1" (world offlineSession))) eq_refl))).
  - exact (f_equal errorMessage (proj1
      (Hadd Field fooDraft [earlierChange] "Failed to fetch"
         (snd (selectChanges "s1" (world flakySession)))
         (snd (updateChanges "s1"
                 [earlierChange; Change.mk "1704240000000" Field fooDraft]
                 (snd (selectChanges "s1" (world flakySession)))))
         eq_refl eq_refl))).
  - exact (proj1 (proj2
      (Hremove "1704153600000" [earlierChange] "Failed to fetch"
         (snd (selectChanges "s1" (world flakySession)))
         (snd (updateChanges "s1" []
                 (snd (selectChanges "s1" (world flakySession)))))
         eq_refl eq_refl))).
Defined.

Lemma Reliable_no_faults (w : World) : faults w = [] -> Reliable w.
Proof. intros H f Hin; rewrite H in Hin; destruct Hin. Defined.

Lemma append_then_remove_restores_changes_witness :
  let s1 := after (addChange "s1" Field fooDraft) laterSession in
  let s2 := after (removeChange "s1" "1704240000000") s1 in
  map UserStory.changes (table (world s1)) =
    [[earlierChange; Change.mk "1704240000000" Field fooDraft]]
  /\ table (world s2) = table (world laterSession).
Proof.
  split; [reflexivity|].
  apply (append_then_remove_restores_changes
           "s1" Field fooDraft laterSession collidingStory).
  - apply Reliable_no_faults; reflexivity.
  - reflexivity.
  - intros change [<-|[]]; vm_compute; discriminate.
Defined.

Lemma removeChange_filters_matching_id_witness :
  let s' := after (removeChange "s1" "1704153600000") twoChangeSession in
  exists row : UserStory.t,
    filter (hasId "s1") (table (world s')) = [row]
    /\ UserStory.changes row = [laterChange].
Proof.
  exact (proj1 (proj2 (proj2 (proj2 (proj2 (proj2
    (removeChange_filters_matching_id
       "s1" "1704153600000" twoChangeSession [earlierChange; laterChange]
       (snd (selectChanges "s1" (world twoChangeSession)))
       (snd (updateChanges "s1" [laterChange]
               (snd (selectChanges "s1" (world twoChangeSession)))))
       eq_refl eq_refl))))))).
Defined.

Lemma validate_permission_requires_both_names_witness :
  ChangeForm.changeType permissionSetOnlyForm = Permission
  /\ exists message : string,
       ChangeForm.validate permissionSetOnlyForm =
       ChangeForm.Rejected message.
Proof.
  split; [reflexivity|].
  apply (proj1 (validate_permission_requires_both_names
                  permissionSetOnlyForm eq_refl)).
  right; right; reflexivity.
Defined.

Lemma fetch_scopes_cache_and_sign_out_hides_it_witness :
  userStories (view (after fetchUserStories aliceSession)) = [aliceStory]
  /\ renderedStories (view (after handleLogout aliceSession)) = []
  /\ userStories (view (after handleLogout aliceSession)) = [aliceStory].
Proof.
  destruct (fetch_scopes_cache_and_sign_out_hides_it aliceSession alice eq_refl)
    as [Hfetch [_ [_ Hout]]].
  split; [|split].
  - exact (proj1 (Hfetch [aliceStory]
                    (snd (selectStories "alice" (world aliceSession)))
                    eq_refl)).
  - exact (proj2 (proj2 (Hout (snd (signOut (world aliceSession))) eq_refl))).
  - exact (proj1 (proj2 (Hout (snd (signOut (world aliceSession))) eq_refl))).
Defined.


Lemma interleaved_appends_lose_first_entry_witness :
  let salesUser :=
    OfProfile (ProfileChange.mk "2024-01-03" "Sales User" "") in
  let tasks :=
    [AwaitingSelect "s1" Field fooDraft; AwaitingSelect "s1" Profile salesUser]
  in
  let s' :=
    after (run (racingSchedule 1704240000000 1704240000007) tasks)
          laterSession in
  exists row : UserStory.t,
    filter (hasId "s1") (table (world s')) = [row]
    /\ UserStory.changes row =
       [earlierChange; Change.mk "1704240000007" Profile salesUser]
    /\ In (Change.mk "1704240000007" Profile salesUser) (UserStory.changes row)
    /\ ~ In (Change.mk "1704240000000" Field fooDraft) (UserStory.changes row).
Proof.
  intros salesUser tasks s'.
  assert (Hfresh : forall change : Change.t,
             In change (UserStory.changes collidingStory) ->
             Change.id change <> toString 1704240000000).
  { intros change [<-|[]]; vm_compute; discriminate. }
  exact (proj1 (proj2 (proj2 (proj2 (proj2 (proj2
    (interleaved_appends_lose_first_entry
       "s1" laterSession collidingStory Field Profile fooDraft
       salesUser 1704240000000%N 1704240000007%N
       (Reliable_no_faults (world laterSession) eq_refl) eq_refl
       Hfresh ltac:(discriminate)))))))).
Defined.

(** * Further properties of the component *)

(** ** What the change form accepts *)

Ltac some_input_empty :=
  match goal with
  | |- exists x : string, In x _ /\ x = "" =>
      exists ""; split; [simpl; solve [auto 10]|reflexivity]
  end.

Ltac no_input_empty H :=
  let x := fresh "x" in
  let Hin := fresh "Hin" in
  let Hx := fresh "Hx" in
  destruct H as [x [Hin Hx]]; simpl in Hin;
  repeat (destruct Hin as [Hin|Hin]; [subst x; discriminate|]);
  contradiction.

(** X1. The form is rejected exactly when one of the inputs checked for its
    change type is empty, and a missing date is reported before anything
    else.  An accepted form yields a record of the variant the change type
    names, with every required field non-empty. *)
Theorem validate_accepts_complete_conforming_records :
  forall f : ChangeForm.state,
    ((exists message : string,
         ChangeForm.validate f = ChangeForm.Rejected message) <->
     (exists x : string, In x (inputsChecked f) /\ x = ""))
    /\ (forall d : Details,
          ChangeForm.validate f = ChangeForm.Accepted d ->
          detailsType d = ChangeForm.changeType f
          /\ forall x : string, In x (requiredFields d) -> x <> "")
    /\ (ChangeForm.date f = "" ->
        ChangeForm.validate f =
        ChangeForm.Rejected "Please select a date for the change.").
Proof.
  intros [ty date api label ft cn cft code prof ps perm r w note].
  unfold ChangeForm.validate, inputsChecked; cbn [ChangeForm.changeType
    ChangeForm.date ChangeForm.fieldApiName ChangeForm.fieldLabel
    ChangeForm.fieldType ChangeForm.lwcComponentName ChangeForm.lwcFileType
    ChangeForm.lwcCode ChangeForm.profile ChangeForm.permissionSet
    ChangeForm.permission ChangeForm.readAccess ChangeForm.writeAccess
    ChangeForm.note].
  split; [|split].
  - destruct date; [split; intros _; [some_input_empty|eexists; reflexivity]|].
    destruct ty; cbn [truthy negb].
    + destruct api, label, ft; cbn [truthy negb orb];
        (split; intros H;
         [first [some_input_empty | destruct H as [m H]; discriminate H]
         |first [eexists; reflexivity | no_input_empty H]]).
    + destruct cn, cft; cbn [truthy negb orb];
        (split; intros H;
         [first [some_input_empty | destruct H as [m H]; discriminate H]
         |first [eexists; reflexivity | no_input_empty H]]).
    + destruct prof; cbn [truthy negb orb];
        (split; intros H;
         [first [some_input_empty | destruct H as [m H]; discriminate H]
         |first [eexists; reflexivity | no_input_empty H]]).
    + destruct ps, perm; cbn [truthy negb orb];
        (split; intros H;
         [first [some_input_empty | destruct H as [m H]; discriminate H]
         |first [eexists; reflexivity | no_input_empty H]]).
  - intros d; destruct date; cbn [truthy negb]; [discriminate|].
    destruct ty.
    + destruct api, label, ft; cbn [truthy negb orb]; intros H;
        inversion H; subst; split; [reflexivity|];
        intros x Hin; simpl in Hin;
        repeat (destruct Hin as [Hin|Hin]; [subst x; discriminate|]);
        contradiction.
    + destruct cn, cft; cbn [truthy negb orb]; intros H;
        inversion H; subst; split; [reflexivity|];
        intros x Hin; simpl in Hin;
        repeat (destruct Hin as [Hin|Hin]; [subst x; discriminate|]);
        contradiction.
    + destruct prof; cbn [truthy negb orb]; intros H;
        inversion H; subst; split; [reflexivity|];
        intros x Hin; simpl in Hin;
        repeat (destruct Hin as [Hin|Hin]; [subst x; discriminate|]);
        contradiction.
    + destruct ps, perm; cbn [truthy negb orb]; intros H;
        inversion H; subst; split; [reflexivity|];
        intros x Hin; simpl in Hin;
        repeat (destruct Hin as [Hin|Hin]; [subst x; discriminate|]);
        contradiction.
  - intros ->; reflexivity.
Qed.

(** ** What the two editors can do to the table and to the cache *)

Lemma selectChanges_table (id : string) (w : World) :
  table (snd (selectChanges id w)) = table w
  /\ now (snd (selectChanges id w)) = now w.
Proof.
  rewrite selectChanges_world.
  pose proof (transport_table (SelectChanges id) w) as [Ht [Hn _]]; auto.
Qed.

Lemma setErrorMessage_settings (message : string) (w : World) (c : Component) :
  let s' := after (setErrorMessage message) (mkSession w c) in
  world s' = w /\ userStories (view s') = userStories c
  /\ SameSettings (view s') c.
Proof. unfold SameSettings; simpl; auto 10. Qed.

Lemma setUserStories_settings (f : list UserStory.t -> list UserStory.t)
  (w : World) (c : Component) :
  let s' := after (setUserStories f) (mkSession w c) in
  world s' = w /\ userStories (view s') = f (userStories c)
  /\ SameSettings (view s') c
  /\ errorMessage (view s') = errorMessage c.
Proof. unfold SameSettings; simpl; auto 10. Qed.

(** Either nothing is written and the cache is kept, or the one row of the
    story and its cached copies get the extended list. *)
Lemma addChange_outcome (storyId : string) (ty : ChangeType) (d : Details)
  (s : Session) :
  let s' := after (addChange storyId ty d) s in
  SameSettings (view s') (view s)
  /\ ((table (world s') = table (world s)
       /\ userStories (view s') = userStories (view s))
      \/ exists story : UserStory.t,
           filter (hasId storyId) (table (world s)) = [story]
           /\ table (world s') =
              overwritten storyId
                (UserStory.changes story ++
                 [Change.mk (toString (now (world s))) ty d])
                (table (world s))
           /\ userStories (view s') =
              overwritten storyId
                (UserStory.changes story ++
                 [Change.mk (toString (now (world s))) ty d])
                (userStories (view s))
           /\ errorMessage (view s') = errorMessage (view s)).
Proof.
  intros s'; unfold s'.
  pose proof (selectChanges_table storyId (world s)) as [Ht1 Hn1].
  destruct (selectChanges storyId (world s)) as [[current|m] w1] eqn:Hsel;
    simpl in Ht1, Hn1.
  - destruct (selectChanges_Data _ _ _ _ Hsel) as [_ [story [Hrow Hcur]]].
    destruct (updateChanges storyId
                (current ++ [Change.mk (toString (now w1)) ty d]) w1)
      as [[[]|m] w2] eqn:Hupd.
    + rewrite (addChange_done _ _ _ _ _ _ _ Hsel Hupd).
      destruct (updateChanges_Data _ _ _ _ _ Hupd) as [Ht2 _].
      destruct (setUserStories_settings
                  (replaceCached storyId
                     (current ++ [Change.mk (toString (now w1)) ty d]))
                  w2 (view s)) as [Hw [Hc [Hs He]]].
      split; [exact Hs|right; exists story].
      rewrite Hw, Hc, He, Ht2, Ht1, Hn1, Hcur; auto.
    + rewrite (addChange_update_error _ _ _ _ _ _ _ _ Hsel Hupd).
      destruct (updateChanges_Error _ _ _ _ _ Hupd) as [Ht2 _].
      destruct (setErrorMessage_settings "Error adding change" w2 (view s))
        as [Hw [Hc Hs]].
      split; [exact Hs|left]; rewrite Hw, Hc, Ht2, Ht1; auto.
  - rewrite (addChange_fetch_error _ _ _ _ _ _ Hsel).
    destruct (setErrorMessage_settings "Error fetching user story" w1 (view s))
      as [Hw [Hc Hs]].
    split; [exact Hs|left]; rewrite Hw, Hc, Ht1; auto.
Qed.

Lemma removeChange_outcome (storyId changeId : string) (s : Session) :
  let s' := after (removeChange storyId changeId) s in
  SameSettings (view s') (view s)
  /\ ((table (world s') = table (world s)
       /\ userStories (view s') = userStories (view s))
      \/ exists story : UserStory.t,
           filter (hasId storyId) (table (world s)) = [story]
           /\ table (world s') =
              overwritten storyId
                (filter (fun change => negb (Change.id change =? changeId))
                        (UserStory.changes story))
                (table (world s))
           /\ userStories (view s') =
              overwritten storyId
                (filter (fun change => negb (Change.id change =? changeId))
                        (UserStory.changes story))
                (userStories (view s))
           /\ errorMessage (view s') = errorMessage (view s)).
Proof.
  intros s'; unfold s'.
  pose proof (selectChanges_table storyId (world s)) as [Ht1 _].
  destruct (selectChanges storyId (world s)) as [[current|m] w1] eqn:Hsel;
    simpl in Ht1.
  - destruct (selectChanges_Data _ _ _ _ Hsel) as [_ [story [Hrow Hcur]]].
    destruct (updateChanges storyId
                (filter (fun change => negb (Change.id change =? changeId))
                        current) w1)
      as [[[]|m] w2] eqn:Hupd.
    + rewrite (removeChange_done _ _ _ _ _ _ Hsel Hupd).
      destruct (updateChanges_Data _ _ _ _ _ Hupd) as [Ht2 _].
      destruct (setUserStories_settings
                  (replaceCached storyId
                     (filter (fun change => negb (Change.id change =? changeId))
                             current))
                  w2 (view s)) as [Hw [Hc [Hs He]]].
      split; [exact Hs|right; exists story].
      rewrite Hw, Hc, He, Ht2, Ht1, Hcur; auto.
    + rewrite (removeChange_update_error _ _ _ _ _ _ _ Hsel Hupd).
      destruct (updateChanges_Error _ _ _ _ _ Hupd) as [Ht2 _].
      destruct (setErrorMessage_settings "Error removing change" w2 (view s))
        as [Hw [Hc Hs]].
      split; [exact Hs|left]; rewrite Hw, Hc, Ht2, Ht1; auto.
  - rewrite (removeChange_fetch_error _ _ _ _ _ Hsel).
    destruct (setErrorMessage_settings "Error fetching user story" w1 (view s))
      as [Hw [Hc Hs]].
    split; [exact Hs|left]; rewrite Hw, Hc, Ht1; auto.
Qed.

Lemma handleAddChange_after (storyId : string) (f : ChangeForm.state)
  (s : Session) (d : Details) :
  ChangeForm.validate f = ChangeForm.Accepted d ->
  ChangeForm.handleAddChange storyId f s =
  (ChangeForm.reset f, after (addChange storyId (ChangeForm.changeType f) d) s).
Proof.
  intros Hv; unfold ChangeForm.handleAddChange, after; rewrite Hv.
  unfold bind, ret.
  destruct (addChange storyId (ChangeForm.changeType f) d s); reflexivity.
Qed.

Lemma validate_Accepted_detailsType (f : ChangeForm.state) (d : Details) :
  ChangeForm.validate f = ChangeForm.Accepted d ->
  detailsType d = ChangeForm.changeType f.
Proof.
  unfold ChangeForm.validate.
  destruct (negb (truthy (ChangeForm.date f))); [discriminate|].
  destruct (ChangeForm.changeType f);
    match goal with |- context [if ?b then _ else _] => destruct b end;
    intros H; inversion H; reflexivity.
Qed.

Lemma AllConform_overwritten (id : string) (changes : list Change.t)
  (rows : list UserStory.t) :
  AllConform rows -> (forall change, In change changes -> Conforms change) ->
  AllConform (overwritten id changes rows).
Proof.
  unfold AllConform, overwritten; intros Hrows Hnew story change Hin Hch.
  apply in_map_iff in Hin; destruct Hin as [r [Hr Hin]].
  destruct (hasId id r); subst story; [apply Hnew; exact Hch|eauto].
Qed.

Lemma single_row_In (id : string) (rows : list UserStory.t)
  (story : UserStory.t) :
  filter (hasId id) rows = [story] -> In story rows.
Proof.
  intros Hrow.
  assert (H : In story (filter (hasId id) rows)) by (rewrite Hrow; now left).
  now apply filter_In in H.
Qed.

(** X2. Every change kept by the table and by the cache stays of the variant
    its type names, whatever [handleAddChange] and [removeChange] do: a
    rejected form, a failed read or write, or a completed update. *)
Theorem change_editors_keep_changes_conforming :
  forall (storyId changeId : string) (f : ChangeForm.state) (s : Session),
    AllConform (table (world s)) ->
    AllConform (userStories (view s)) ->
    (let s' := after (ChangeForm.handleAddChange storyId f) s in
     AllConform (table (world s')) /\ AllConform (userStories (view s')))
    /\ (let s' := after (removeChange storyId changeId) s in
        AllConform (table (world s')) /\ AllConform (userStories (view s'))).
Proof.
  intros storyId changeId f s Htable Hcache; split.
  - destruct (ChangeForm.validate f) as [m|d] eqn:Hv.
    + unfold after, ChangeForm.handleAddChange; rewrite Hv; simpl; auto.
    + cbv zeta; unfold after at 1 2.
      rewrite (handleAddChange_after _ _ _ _ Hv); cbn [snd].
      destruct (addChange_outcome storyId (ChangeForm.changeType f) d s)
        as [_ [[-> ->]|[story [Hrow [-> [-> _]]]]]]; [auto|].
      assert (Hnew : forall change : Change.t,
                 In change
                   (UserStory.changes story ++
                    [Change.mk (toString (now (world s)))
                               (ChangeForm.changeType f) d]) ->
                 Conforms change).
      { intros change Hin; apply in_app_iff in Hin.
        destruct Hin as [Hin|[<-|[]]].
        - exact (Htable story change (single_row_In _ _ _ Hrow) Hin).
        - exact (validate_Accepted_detailsType f d Hv). }
      split; apply AllConform_overwritten; assumption.
  - cbv zeta.
    destruct (removeChange_outcome storyId changeId s)
      as [_ [[-> ->]|[story [Hrow [-> [-> _]]]]]]; [auto|].
    assert (Hnew : forall change : Change.t,
               In change
                 (filter (fun change => negb (Change.id change =? changeId))
                         (UserStory.changes story)) ->
               Conforms change).
    { intros change Hin; apply filter_In in Hin.
      exact (Htable story change (single_row_In _ _ _ Hrow) (proj1 Hin)). }
    split; apply AllConform_overwritten; assumption.
Qed.

(** X3. An accepted form is cleared as soon as [addChange] is called: every
    text input is empty and both check boxes are unchecked afterwards, the
    change type alone is kept.  So when the read of the story then fails,
    nothing is stored or cached, the error is shown, and the draft is gone
    from the form (a second click is rejected for its missing date). *)
Theorem handleAddChange_clears_accepted_form_even_on_failure :
  forall (storyId : string) (f : ChangeForm.state) (s : Session) (d : Details),
    ChangeForm.validate f = ChangeForm.Accepted d ->
    let f' := fst (ChangeForm.handleAddChange storyId f s) in
    let s' := after (ChangeForm.handleAddChange storyId f) s in
    f' = ChangeForm.reset f
    /\ ChangeForm.changeType f' = ChangeForm.changeType f
    /\ ChangeForm.validate f' =
       ChangeForm.Rejected "Please select a date for the change."
    /\ (forall (message : string) (w1 : World),
          selectChanges storyId (world s) = (Error message, w1) ->
          table (world s') = table (world s)
          /\ userStories (view s') = userStories (view s)
          /\ errorMessage (view s') = "Error fetching user story")
    /\ f' =
       ChangeForm.mk (ChangeForm.changeType f) "" "" "" "" "" "" "" "" "" ""
                     false false ""
    /\ (forall x : string,
          In x [ChangeForm.date f'; ChangeForm.fieldApiName f';
                ChangeForm.fieldLabel f'; ChangeForm.fieldType f';
                ChangeForm.lwcComponentName f'; ChangeForm.lwcFileType f';
                ChangeForm.lwcCode f'; ChangeForm.profile f';
                ChangeForm.permissionSet f'; ChangeForm.permission f';
                ChangeForm.note f'] ->
          x = "")
    /\ ChangeForm.readAccess f' = false
    /\ ChangeForm.writeAccess f' = false.
Proof.
  intros storyId f s d Hv f' s'; unfold f', s', after.
  rewrite (handleAddChange_after _ _ _ _ Hv); cbn [fst snd].
  split; [reflexivity|split; [reflexivity|split; [reflexivity|]]].
  split;
    [|split; [reflexivity|split; [|split; reflexivity]];
      intros x Hin; simpl in Hin;
      repeat (destruct Hin as [Hin|Hin]; [now subst x|]); contradiction].
  intros message w1 Hsel.
  rewrite (addChange_fetch_error _ _ _ _ _ _ Hsel).
  pose proof (selectChanges_table storyId (world s)) as [Ht _].
  rewrite Hsel in Ht; simpl in Ht.
  unfold after, setErrorMessage; simpl; auto.
Qed.

Lemma overwritten_SameButChanges (id : string) (changes : list Change.t)
  (rows : list UserStory.t) :
  Forall2 SameButChanges (overwritten id changes rows) rows.
Proof.
  unfold overwritten; induction rows as [|r rows IH]; simpl; constructor;
    [|exact IH].
  destruct (hasId id r); unfold SameButChanges; simpl; auto 10.
Qed.

Lemma SameButChanges_refl (rows : list UserStory.t) :
  Forall2 SameButChanges rows rows.
Proof.
  induction rows; constructor; [unfold SameButChanges; auto 10|assumption].
Qed.

Lemma overwritten_other (id : string) (changes : list Change.t)
  (rows : list UserStory.t) (story : UserStory.t) :
  In story (overwritten id changes rows) -> UserStory.id story <> id ->
  In story rows.
Proof.
  unfold overwritten; rewrite in_map_iff; intros [r [Hr Hin]] Hid.
  destruct (hasId id r) eqn:E; subst story; [|exact Hin].
  unfold hasId in E; apply String.eqb_eq in E; contradiction.
Qed.

(** X4. [addChange] and [removeChange] never add, drop or reorder stories,
    in the table or in the cache, whatever the outcome of their requests:
    row by row, everything but the changes is as before, a story with
    another id is untouched, and the user, the expansion, the filter and the
    page of the component are kept. *)
Theorem change_editors_keep_stories_in_place :
  forall (storyId changeId : string) (ty : ChangeType) (d : Details)
         (s : Session),
    (let s' := after (addChange storyId ty d) s in
     Forall2 SameButChanges (table (world s')) (table (world s))
     /\ Forall2 SameButChanges (userStories (view s')) (userStories (view s))
     /\ (forall story : UserStory.t,
           In story (userStories (view s')) -> UserStory.id story <> storyId ->
           In story (userStories (view s)))
     /\ SameSettings (view s') (view s))
    /\ (let s' := after (removeChange storyId changeId) s in
        Forall2 SameButChanges (table (world s')) (table (world s))
        /\ Forall2 SameButChanges (userStories (view s')) (userStories (view s))
        /\ (forall story : UserStory.t,
              In story (userStories (view s')) ->
              UserStory.id story <> storyId ->
              In story (userStories (view s)))
        /\ SameSettings (view s') (view s)).
Proof.
  intros storyId changeId ty d s; split; cbv zeta.
  - destruct (addChange_outcome storyId ty d s)
      as [Hs [[-> ->]|[story [_ [-> [-> _]]]]]].
    + repeat split; try apply SameButChanges_refl; try apply Hs; auto.
    + repeat split; try apply overwritten_SameButChanges; try apply Hs.
      intros story' Hin Hid; exact (overwritten_other _ _ _ _ Hin Hid).
  - destruct (removeChange_outcome storyId changeId s)
      as [Hs [[-> ->]|[story [_ [-> [-> _]]]]]].
    + repeat split; try apply SameButChanges_refl; try apply Hs; auto.
    + repeat split; try apply overwritten_SameButChanges; try apply Hs.
      intros story' Hin Hid; exact (overwritten_other _ _ _ _ Hin Hid).
Qed.

(** ** The page under edits of the change log *)

Lemma slice_map {A B : Type} (g : A -> B) (l : list A) (start finish : Z) :
  slice (map g l) start finish = map g (slice l start finish).
Proof.
  unfold slice; rewrite length_map, skipn_map, firstn_map; reflexivity.
Qed.

Lemma filterByNumber_overwritten (id : string) (changes : list Change.t)
  (rows : list UserStory.t) (q : string) :
  filterByNumber (overwritten id changes rows) q =
  overwritten id changes (filterByNumber rows q).
Proof.
  unfold filterByNumber, overwritten; induction rows as [|r rows IH]; simpl;
    [reflexivity|].
  assert (E : matchesNumber q
                (if hasId id r then UserStory.withChanges r changes else r) =
              matchesNumber q r) by (destruct (hasId id r); reflexivity).
  rewrite E; destruct (matchesNumber q r); simpl; now rewrite IH.
Qed.

Lemma overwritten_length (id : string) (changes : list Change.t)
  (rows : list UserStory.t) :
  List.length (overwritten id changes rows) = List.length rows.
Proof. apply length_map. Qed.

Lemma page_of_overwritten (id : string) (changes : list Change.t)
  (c' c : Component) :
  SameSettings c' c ->
  userStories c' = overwritten id changes (userStories c) ->
  currentStories c' = overwritten id changes (currentStories c)
  /\ pageButtons c' = pageButtons c.
Proof.
  intros [_ [_ [Hf Hp]]] Hu.
  assert (Hfs : filteredStories c' =
                overwritten id changes (filteredStories c)).
  { unfold filteredStories; rewrite Hu, Hf; apply filterByNumber_overwritten. }
  split.
  - unfold currentStories, pageOf; rewrite Hfs, Hp; apply slice_map.
  - unfold pageButtons; rewrite Hfs, overwritten_length; reflexivity.
Qed.

Lemma page_of_same_cache (c' c : Component) :
  SameSettings c' c -> userStories c' = userStories c ->
  currentStories c' = currentStories c /\ pageButtons c' = pageButtons c.
Proof.
  intros [_ [_ [Hf Hp]]] Hu.
  unfold pageButtons, currentStories, filteredStories; rewrite Hu, Hf, Hp; auto.
Qed.

(** X5. Editing the change log never moves a story to another page: after
    [addChange] or [removeChange], whatever their outcome, the current page
    shows the same stories in the same order, differing at most in their
    changes, and the page buttons are the same. *)
Theorem change_editors_keep_the_page :
  forall (storyId changeId : string) (ty : ChangeType) (d : Details)
         (s : Session),
    (let s' := after (addChange storyId ty d) s in
     Forall2 SameButChanges (currentStories (view s')) (currentStories (view s))
     /\ pageButtons (view s') = pageButtons (view s))
    /\ (let s' := after (removeChange storyId changeId) s in
        Forall2 SameButChanges (currentStories (view s'))
                (currentStories (view s))
        /\ pageButtons (view s') = pageButtons (view s)).
Proof.
  intros storyId changeId ty d s; split; cbv zeta.
  - destruct (addChange_outcome storyId ty d s)
      as [Hs [[_ Hu]|[story [_ [_ [Hu _]]]]]].
    + destruct (page_of_same_cache _ _ Hs Hu) as [-> ->].
      split; [apply SameButChanges_refl|reflexivity].
    + destruct (page_of_overwritten _ _ _ _ Hs Hu) as [-> ->].
      split; [apply overwritten_SameButChanges|reflexivity].
  - destruct (removeChange_outcome storyId changeId s)
      as [Hs [[_ Hu]|[story [_ [_ [Hu _]]]]]].
    + destruct (page_of_same_cache _ _ Hs Hu) as [-> ->].
      split; [apply SameButChanges_refl|reflexivity].
    + destruct (page_of_overwritten _ _ _ _ Hs Hu) as [-> ->].
      split; [apply overwritten_SameButChanges|reflexivity].
Qed.

(** ** The editors when every request succeeds *)

Lemma addChange_Reliable (storyId : string) (ty : ChangeType) (d : Details)
  (s : Session) (story : UserStory.t) :
  Reliable (world s) ->
  filter (hasId storyId) (table (world s)) = [story] ->
  let next :=
    UserStory.changes story ++ [Change.mk (toString (now (world s))) ty d] in
  let s' := after (addChange storyId ty d) s in
  Reliable (world s')
  /\ table (world s') = overwritten storyId next (table (world s))
  /\ filter (hasId storyId) (table (world s')) =
     [UserStory.withChanges story next]
  /\ userStories (view s') = overwritten storyId next (userStories (view s)).
Proof.
  intros Hrel Hrow next s'.
  pose proof (selectChanges_Reliable _ _ _ Hrel Hrow) as Hsel.
  destruct (transport_Reliable (SelectChanges storyId) _ Hrel) as [_ Hrel1].
  pose proof (transport_table (SelectChanges storyId) (world s))
    as [Ht1 [Hn1 _]].
  set (w1 := snd (transport (SelectChanges storyId) (world s))) in *.
  destruct (updateChanges_Reliable storyId next w1 Hrel1)
    as [w2 [Hupd [Hrel2 [Ht2 _]]]].
  assert (Hs' : s' = after (setUserStories (replaceCached storyId next))
                           (mkSession w2 (view s))).
  { unfold s'.
    rewrite (addChange_done storyId ty d s (UserStory.changes story) w1 w2 Hsel);
      rewrite Hn1; [reflexivity|exact Hupd]. }
  rewrite Hs'; unfold after, setUserStories; simpl.
  rewrite Ht2, Ht1, filter_hasId_overwritten, Hrow; auto.
Qed.

Lemma removeChange_Reliable (storyId changeId : string) (s : Session)
  (story : UserStory.t) :
  Reliable (world s) ->
  filter (hasId storyId) (table (world s)) = [story] ->
  let next :=
    filter (fun change => negb (Change.id change =? changeId))
           (UserStory.changes story) in
  let s' := after (removeChange storyId changeId) s in
  Reliable (world s')
  /\ table (world s') = overwritten storyId next (table (world s))
  /\ filter (hasId storyId) (table (world s')) =
     [UserStory.withChanges story next]
  /\ userStories (view s') = overwritten storyId next (userStories (view s)).
Proof.
  intros Hrel Hrow next s'.
  pose proof (selectChanges_Reliable _ _ _ Hrel Hrow) as Hsel.
  destruct (transport_Reliable (SelectChanges storyId) _ Hrel) as [_ Hrel1].
  pose proof (transport_table (SelectChanges storyId) (world s)) as [Ht1 _].
  set (w1 := snd (transport (SelectChanges storyId) (world s))) in *.
  destruct (updateChanges_Reliable storyId next w1 Hrel1)
    as [w2 [Hupd [Hrel2 [Ht2 _]]]].
  assert (Hs' : s' = after (setUserStories (replaceCached storyId next))
                           (mkSession w2 (view s))).
  { unfold s'.
    exact (removeChange_done storyId changeId s (UserStory.changes story)
             w1 w2 Hsel Hupd). }
  rewrite Hs'; unfold after, setUserStories; simpl.
  rewrite Ht2, Ht1, filter_hasId_overwritten, Hrow; auto.
Qed.

Lemma overwritten_idem (id : string) (changes other : list Change.t)
  (rows : list UserStory.t) :
  overwritten id changes (overwritten id other rows) =
  overwritten id changes rows.
Proof.
  unfold overwritten; rewrite map_map; apply map_ext; intros r.
  destruct (hasId id r) eqn:E.
  - unfold hasId in *; rewrite withChanges_id, E; reflexivity.
  - now rewrite E.
Qed.

Lemma filter_filter_same {A : Type} (p : A -> bool) (l : list A) :
  filter p (filter p l) = filter p l.
Proof. apply forallb_filter_id, forallb_filter. Qed.

(** X6. When the requests succeed and the story is the one row with its id,
    removing a change a second time changes nothing: the table and the cache
    after two [removeChange] are the table and the cache after one, and
    after one no stored change of the story has that id. *)
Theorem removeChange_twice_is_once :
  forall (storyId changeId : string) (s : Session) (story : UserStory.t),
    Reliable (world s) ->
    filter (hasId storyId) (table (world s)) = [story] ->
    let s1 := after (removeChange storyId changeId) s in
    let s2 := after (removeChange storyId changeId) s1 in
    table (world s2) = table (world s1)
    /\ userStories (view s2) = userStories (view s1)
    /\ (forall (row : UserStory.t) (change : Change.t),
          In row (table (world s1)) -> UserStory.id row = storyId ->
          In change (UserStory.changes row) -> Change.id change <> changeId).
Proof.
  intros storyId changeId s story Hrel Hrow s1 s2.
  destruct (removeChange_Reliable storyId changeId s story Hrel Hrow)
    as [Hrel1 [Ht1 [Hrow1 Hc1]]].
  destruct (removeChange_Reliable storyId changeId s1 _ Hrel1 Hrow1)
    as [_ [Ht2 [_ Hc2]]].
  fold s2 in Ht2, Hc2; rewrite withChanges_changes, filter_filter_same in Ht2, Hc2.
  fold s1 in Ht1, Hc1.
  split; [|split].
  - rewrite Ht2, Ht1; apply overwritten_idem.
  - rewrite Hc2, Hc1; apply overwritten_idem.
  - intros row change Hin Hid Hch; rewrite Ht1 in Hin.
    rewrite (overwritten_In _ _ _ _ Hin Hid) in Hch.
    apply filter_In in Hch; destruct Hch as [_ Hne].
    now apply negb_true_iff, String.eqb_neq in Hne.
Qed.

Lemma filter_out_unique_id (changes : list Change.t) (c : Change.t) :
  NoDup (changeIds changes) -> In c changes ->
  exists before behind : list Change.t,
    changes = before ++ c :: behind
    /\ filter (fun change => negb (Change.id change =? Change.id c)) changes =
       before ++ behind.
Proof.
  intros Hnd Hin.
  destruct (in_split _ _ Hin) as [before [behind ->]].
  exists before, behind; split; [reflexivity|].
  unfold changeIds in Hnd; rewrite map_app in Hnd; simpl in Hnd.
  pose proof (NoDup_remove_2 _ _ _ Hnd) as Hfresh.
  rewrite filter_app; simpl; rewrite String.eqb_refl; simpl.
  f_equal; apply forallb_filter_id, forallb_forall; intros x Hx;
    apply negb_true_iff, String.eqb_neq; intros Heq; apply Hfresh;
    apply in_or_app; [left|right]; rewrite <- Heq; now apply in_map.
Qed.

(** X7. When the ids of the stored changes of a story are pairwise distinct,
    a successful [removeChange] with the id of a stored change removes that
    one change and nothing else: the changes of the stored row, and of the
    cached stories with its id, are the old list with the change cut out,
    one shorter, without the change, and with ids still distinct. *)
Theorem removeChange_unique_id_removes_one_entry :
  forall (storyId : string) (s : Session) (story : UserStory.t)
         (change : Change.t),
    Reliable (world s) ->
    filter (hasId storyId) (table (world s)) = [story] ->
    NoDup (changeIds (UserStory.changes story)) ->
    In change (UserStory.changes story) ->
    let s' := after (removeChange storyId (Change.id change)) s in
    exists before behind : list Change.t,
      UserStory.changes story = before ++ change :: behind
      /\ filter (hasId storyId) (table (world s')) =
         [UserStory.withChanges story (before ++ behind)]
      /\ S (List.length (before ++ behind)) =
         List.length (UserStory.changes story)
      /\ NoDup (changeIds (before ++ behind))
      /\ (exists row : UserStory.t,
            filter (hasId storyId) (table (world s')) = [row]
            /\ UserStory.changes row = before ++ behind
            /\ S (List.length (UserStory.changes row)) =
               List.length (UserStory.changes story)
            /\ NoDup (changeIds (UserStory.changes row))
            /\ ~ In change (UserStory.changes row))
      /\ (forall cached : UserStory.t,
            In cached (userStories (view s')) ->
            UserStory.id cached = storyId ->
            UserStory.changes cached = before ++ behind).
Proof.
  intros storyId s story change Hrel Hrow Hnd Hin s'.
  destruct (removeChange_Reliable storyId (Change.id change) s story Hrel Hrow)
    as [_ [_ [Hrow' Hcache]]].
  destruct (filter_out_unique_id _ _ Hnd Hin) as [before [behind [Hsplit Hcut]]].
  exists before, behind; fold s' in Hrow', Hcache; rewrite Hcut in Hrow', Hcache.
  assert (Hlen : S (List.length (before ++ behind)) =
                 List.length (UserStory.changes story))
    by (rewrite Hsplit, !length_app; simpl; lia).
  assert (Hnd' : NoDup (changeIds (before ++ behind))).
  { rewrite Hsplit in Hnd; unfold changeIds in *.
    rewrite map_app in *; simpl in Hnd; exact (NoDup_remove_1 _ _ _ Hnd). }
  assert (Hgone : ~ In change (before ++ behind)).
  { rewrite Hsplit in Hnd; unfold changeIds in Hnd.
    rewrite map_app in Hnd; simpl in Hnd.
    intros Hc; apply (NoDup_remove_2 _ _ _ Hnd).
    rewrite <- map_app; now apply in_map. }
  split; [exact Hsplit|split; [exact Hrow'|split; [exact Hlen|]]].
  split; [exact Hnd'|split].
  - exists (UserStory.withChanges story (before ++ behind)).
    rewrite withChanges_changes; auto.
  - intros cached Hc Hid; rewrite Hcache in Hc.
    exact (overwritten_In _ _ _ _ Hc Hid).
Qed.

(** X8. When the ids of the stored changes of a story are pairwise distinct
    and none of them is the decimal reading of the clock, a successful
    [addChange] keeps them distinct: the stored ids are the old ones followed
    by the clock reading.  Two different clock readings never give the same
    id. *)
Theorem addChange_keeps_ids_unique :
  forall (storyId : string) (ty : ChangeType) (d : Details) (s : Session)
         (story : UserStory.t),
    Reliable (world s) ->
    filter (hasId storyId) (table (world s)) = [story] ->
    NoDup (changeIds (UserStory.changes story)) ->
    ~ In (toString (now (world s))) (changeIds (UserStory.changes story)) ->
    let s' := after (addChange storyId ty d) s in
    (exists row : UserStory.t,
        filter (hasId storyId) (table (world s')) = [row]
        /\ changeIds (UserStory.changes row) =
           changeIds (UserStory.changes story) ++ [toString (now (world s))]
        /\ NoDup (changeIds (UserStory.changes row)))
    /\ (forall t : N,
          t <> now (world s) -> toString t <> toString (now (world s))).
Proof.
  intros storyId ty d s story Hrel Hrow Hnd Hfresh s'.
  destruct (addChange_Reliable storyId ty d s story Hrel Hrow)
    as [_ [_ [Hrow' _]]].
  split.
  - eexists; split; [exact Hrow'|].
    rewrite withChanges_changes; unfold changeIds in *.
    rewrite map_app; simpl; split; [reflexivity|].
    apply NoDup_rev in Hnd.
    rewrite <- (rev_involutive (map Change.id (UserStory.changes story) ++ _)).
    apply NoDup_rev; rewrite rev_app_distr; simpl.
    constructor; [rewrite <- in_rev; exact Hfresh|exact Hnd].
  - intros t Ht Heq; apply Ht, toString_inj, Heq.
Qed.

(** ** Pages *)

Lemma firstn_add_skipn {A : Type} (a b : nat) (l : list A) :
  firstn (a + b) l = firstn a l ++ firstn b (skipn a l).
Proof.
  revert l; induction a as [|a IH]; intros l; [reflexivity|].
  destruct l as [|x l]; simpl; [now rewrite firstn_nil|now rewrite IH].
Qed.

Lemma chunks_concat {A : Type} (n k : nat) (l : list A) :
  List.concat (map (fun i => firstn n (skipn (i * n) l)) (seq 0 k)) =
  firstn (k * n) l.
Proof.
  induction k as [|k IH]; [reflexivity|].
  rewrite seq_S, map_app, concat_app, IH; simpl.
  rewrite app_nil_r, (Nat.add_comm n), firstn_add_skipn; reflexivity.
Qed.

Lemma pageOf_chunk (stories : list UserStory.t) (pageSize : Z) (i : nat) :
  (0 < pageSize)%Z ->
  pageOf stories pageSize (Z.of_nat i + 1) =
  firstn (Z.to_nat pageSize) (skipn (i * Z.to_nat pageSize) stories).
Proof.
  intros Hs; unfold pageOf, indexOfFirstStory, indexOfLastStory.
  assert (Hi : (0 <= Z.of_nat i * pageSize)%Z)
    by (apply Z.mul_nonneg_nonneg; lia).
  replace ((Z.of_nat i + 1) * pageSize - pageSize)%Z
    with (Z.of_nat i * pageSize)%Z by ring.
  replace ((Z.of_nat i + 1) * pageSize)%Z
    with (Z.of_nat i * pageSize + pageSize)%Z by ring.
  rewrite slice_skipn_firstn by lia.
  replace (Z.of_nat i * pageSize + pageSize - Z.of_nat i * pageSize)%Z
    with pageSize by ring.
  rewrite Z2Nat.inj_mul, Nat2Z.id by lia; reflexivity.
Qed.

Lemma ceilDiv_nonneg (n d : Z) : (0 <= n)%Z -> (0 < d)%Z -> (0 <= ceilDiv n d)%Z.
Proof.
  intros Hn Hd; destruct (ceilDiv_IsCeiling n d Hd) as [_ Hup]; nia.
Qed.

(** X9. The pages of the page buttons cut the list into consecutive pieces:
    for a page size above zero, the pages [1 .. pageCount] put one after the
    other are the list itself, so every story is on exactly one page and the
    order is kept. *)
Theorem pages_partition_the_list :
  forall (stories : list UserStory.t) (pageSize : Z),
    (0 < pageSize)%Z ->
    List.concat
      (map (pageOf stories pageSize)
           (pageNumbers (pageCount (Z.of_nat (List.length stories)) pageSize))) =
    stories.
Proof.
  intros stories s Hs; unfold pageNumbers; rewrite map_map.
  rewrite (map_ext _ (fun i => firstn (Z.to_nat s)
                                 (skipn (i * Z.to_nat s) stories)))
    by (intros i; apply pageOf_chunk; exact Hs).
  rewrite chunks_concat; apply firstn_all2.
  unfold pageCount.
  destruct (ceilDiv_IsCeiling (Z.of_nat (List.length stories)) s Hs) as [_ Hup].
  pose proof (ceilDiv_nonneg (Z.of_nat (List.length stories)) s
                ltac:(lia) Hs).
  nia.
Qed.

Lemma pageOf_length (stories : list UserStory.t) (pageSize pageNumber : Z) :
  (0 < pageSize)%Z -> (1 <= pageNumber)%Z ->
  Z.of_nat (List.length (pageOf stories pageSize pageNumber)) =
  Z.max 0 (Z.min pageSize
             (Z.of_nat (List.length stories) - (pageNumber - 1) * pageSize)).
Proof.
  intros Hs Hp; unfold pageOf, indexOfFirstStory, indexOfLastStory.
  rewrite slice_skipn_firstn by nia.
  rewrite length_firstn, length_skipn; nia.
Qed.

(** X10. For a page size above zero: every page before the last one is
    full, the last page holds between one and [pageSize] stories, no page
    holds more than [pageSize], and page 0 is empty. *)
Theorem page_sizes :
  forall (stories : list UserStory.t) (pageSize pageNumber : Z),
    (0 < pageSize)%Z ->
    let count := pageCount (Z.of_nat (List.length stories)) pageSize in
    let size := Z.of_nat (List.length (pageOf stories pageSize pageNumber)) in
    ((1 <= pageNumber < count)%Z -> size = pageSize)
    /\ ((1 <= pageNumber)%Z -> pageNumber = count ->
        (1 <= size <= pageSize)%Z)
    /\ ((1 <= pageNumber)%Z -> (size <= pageSize)%Z)
    /\ pageOf stories pageSize 0 = [].
Proof.
  intros stories s p Hs count size.
  destruct (ceilDiv_IsCeiling (Z.of_nat (List.length stories)) s Hs)
    as [Hlo Hup].
  fold (pageCount (Z.of_nat (List.length stories)) s) in Hlo, Hup.
  fold count in Hlo, Hup.
  split; [|split; [|split]].
  - intros Hp; unfold size; rewrite pageOf_length by lia; nia.
  - intros Hp ->; unfold size; rewrite pageOf_length by lia; nia.
  - intros Hp; unfold size; rewrite pageOf_length by lia; nia.
  - unfold pageOf, indexOfFirstStory, indexOfLastStory, slice, relativeIndex.
    simpl Z.mul; destruct (Z.ltb_spec (0 - s) 0); [|lia].
    change (0 <? 0)%Z with false; cbv iota.
    match goal with
    | |- firstn (Z.to_nat ?n) _ = _ => replace n with 0%Z by lia
    end.
    reflexivity.
Qed.

Lemma slice_contiguous {A : Type} (l : list A) (start finish : Z) :
  exists before behind : list A, l = before ++ slice l start finish ++ behind.
Proof.
  unfold slice.
  set (k := Z.to_nat (relativeIndex _ start)).
  set (n := Z.to_nat (Z.max _ 0)).
  exists (firstn k l), (skipn n (skipn k l)).
  now rewrite (firstn_skipn n), (firstn_skipn k).
Qed.

Lemma slice_length_le {A : Type} (l : list A) (start finish : Z) :
  (start <= finish)%Z ->
  (Z.of_nat (List.length (slice l start finish)) <= finish - start)%Z.
Proof.
  intros H; unfold slice, relativeIndex.
  pose proof (firstn_le_length
                (Z.to_nat
                   (Z.max
                      ((if (finish <? 0)%Z
                        then Z.max (Z.of_nat (List.length l) + finish) 0
                        else Z.min finish (Z.of_nat (List.length l))) -
                       (if (start <? 0)%Z
                        then Z.max (Z.of_nat (List.length l) + start) 0
                        else Z.min start (Z.of_nat (List.length l)))) 0))
                (skipn
                   (Z.to_nat
                      (if (start <? 0)%Z
                       then Z.max (Z.of_nat (List.length l) + start) 0
                       else Z.min start (Z.of_nat (List.length l)))) l)) as Hle.
  destruct (Z.ltb_spec start 0), (Z.ltb_spec finish 0); lia.
Qed.

(** X11. Whatever the state of the component (any page number, zero or
    negative included): the stories rendered are a run of consecutive
    filtered stories, at most [storiesPerPage] of them, each one cached and
    matching the filter; nothing is rendered when nobody is signed in. *)
Theorem rendered_stories_are_one_page_of_the_cache :
  forall c : Component,
    (List.length (renderedStories c) <= 10)%nat
    /\ (exists before behind : list UserStory.t,
          filteredStories c = before ++ currentStories c ++ behind)
    /\ (forall story : UserStory.t,
          In story (renderedStories c) ->
          In story (userStories c)
          /\ matchesNumber (filterNumber c) story = true)
    /\ (currentUser c = None -> renderedStories c = []).
Proof.
  intros c.
  pose proof (slice_contiguous (filteredStories c)
                (indexOfFirstStory storiesPerPage (currentPage c))
                (indexOfLastStory storiesPerPage (currentPage c)))
    as [before [behind Hrun]].
  fold (pageOf (filteredStories c) storiesPerPage (currentPage c)) in Hrun.
  fold (currentStories c) in Hrun.
  assert (Hlen : (List.length (currentStories c) <= 10)%nat).
  { pose proof (slice_length_le (filteredStories c)
                  (indexOfFirstStory storiesPerPage (currentPage c))
                  (indexOfLastStory storiesPerPage (currentPage c))) as H.
    unfold currentStories, pageOf.
    unfold indexOfFirstStory, indexOfLastStory, storiesPerPage in *; lia. }
  split; [|split; [|split]].
  - unfold renderedStories; destruct (currentUser c); simpl; [exact Hlen|lia].
  - exists before, behind; exact Hrun.
  - intros story Hin.
    assert (Hf : In story (filteredStories c)).
    { rewrite Hrun; apply in_or_app; right; apply in_or_app; left.
      unfold renderedStories in Hin; destruct (currentUser c);
        [exact Hin|destruct Hin]. }
    unfold filteredStories, filterByNumber in Hf.
    now apply filter_In in Hf.
  - intros H; unfold renderedStories; now rewrite H.
Qed.

(** X12. The filter input does not reset the page.  When the component
    shows page 2 or later and the filter is narrowed to at most
    [storiesPerPage] matching stories, no story is shown although some may
    match, and no page button is rendered to go back to page 1. *)
Theorem narrowed_filter_leaves_an_empty_page_without_buttons :
  forall (s : Session) (value : string),
    (2 <= currentPage (view s))%Z ->
    (List.length (filterByNumber (userStories (view s)) value) <= 10)%nat ->
    let s' := after (setFilterNumber value) s in
    currentPage (view s') = currentPage (view s)
    /\ filteredStories (view s') = filterByNumber (userStories (view s)) value
    /\ currentStories (view s') = []
    /\ pageButtons (view s') = [].
Proof.
  intros s value Hp Hlen s'.
  assert (Hf : filteredStories (view s') =
               filterByNumber (userStories (view s)) value) by reflexivity.
  split; [reflexivity|split; [exact Hf|split]].
  - unfold currentStories; rewrite Hf.
    change (currentPage (view s')) with (currentPage (view s)).
    unfold pageOf, indexOfFirstStory, indexOfLastStory, storiesPerPage.
    rewrite slice_skipn_firstn by lia.
    rewrite skipn_all2 by lia; apply firstn_nil.
  - unfold pageButtons; rewrite Hf; unfold storiesPerPage.
    destruct (Z.ltb_spec 10
                (Z.of_nat (List.length
                             (filterByNumber (userStories (view s)) value))));
      [lia|reflexivity].
Qed.

(** ** Narrowing the filter *)

Lemma string_app_assoc (a b c : string) :
  ((a ++ b) ++ c)%string = (a ++ b ++ c)%string.
Proof. induction a as [|x a IH]; simpl; [reflexivity|now rewrite IH]. Qed.

Lemma Occurs_trans (q1 q2 n : string) :
  Occurs q1 q2 -> Occurs q2 n -> Occurs q1 n.
Proof.
  intros [a [b ->]] [a' [b' ->]].
  exists (a' ++ a)%string, (b ++ b')%string.
  now rewrite !string_app_assoc.
Qed.

Lemma filter_filter_comm {A : Type} (p q : A -> bool) (l : list A) :
  filter p (filter q l) = filter q (filter p l).
Proof.
  induction l as [|x l IH]; simpl; [reflexivity|].
  destruct (p x) eqn:Ep, (q x) eqn:Eq; simpl; rewrite ?Ep, ?Eq, IH; reflexivity.
Qed.

(** X13. Typing more of a story number only narrows the list: when the old
    query occurs in the new one, filtering the already filtered stories by
    the new query is filtering all stories by it, and every story kept by
    the new query was kept by the old one.  Two filters commute. *)
Theorem filterByNumber_narrows :
  forall (stories : list UserStory.t) (old new : string),
    (Occurs old new ->
     filterByNumber (filterByNumber stories old) new =
       filterByNumber stories new
     /\ incl (filterByNumber stories new) (filterByNumber stories old))
    /\ filterByNumber (filterByNumber stories old) new =
       filterByNumber (filterByNumber stories new) old
    /\ (List.length (filterByNumber stories new) <= List.length stories)%nat.
Proof.
  intros stories old new; split; [|split].
  - intros Hocc.
    assert (Himp : forall story : UserStory.t,
               matchesNumber new story = true ->
               matchesNumber old story = true).
    { intros story; rewrite !matchesNumber_includes, !includes_iff_Occurs.
      apply Occurs_trans, Hocc. }
    split.
    + unfold filterByNumber; rewrite filter_filter_comm.
      apply forallb_filter_id, forallb_forall.
      intros story Hin; apply filter_In in Hin; apply Himp, Hin.
    + intros story Hin; unfold filterByNumber in *.
      apply filter_In in Hin; apply filter_In; split; [tauto|apply Himp; tauto].
  - unfold filterByNumber; apply filter_filter_comm.
  - apply filter_length_le.
Qed.

(** ** Expanding and collapsing stories *)

Lemma existsb_eqb_In (storyId : string) (ids : list string) :
  existsb (fun id => id =? storyId) ids = true <-> In storyId ids.
Proof.
  rewrite existsb_exists; split.
  - intros [x [Hin Heq]]; apply String.eqb_eq in Heq; now subst.
  - intros Hin; exists storyId; split; [exact Hin|apply String.eqb_refl].
Qed.

Lemma filter_other_In (storyId other : string) (ids : list string) :
  In other (filter (fun id => negb (id =? storyId)) ids) <->
  In other ids /\ other <> storyId.
Proof. now rewrite filter_In, negb_true_iff, String.eqb_neq. Qed.

(** X14. [toggleStoryExpansion] flips whether the story is expanded and
    nothing else: every other id is expanded exactly if it was, a list
    without repeats stays without repeats, expanding and then collapsing a
    story gives the list back, and the cache and the remote side are not
    touched. *)
Theorem toggleStoryExpansion_flips_one_story :
  forall (storyId : string) (s : Session),
    let s' := after (toggleStoryExpansion storyId) s in
    (In storyId (expandedStories (view s')) <->
     ~ In storyId (expandedStories (view s)))
    /\ (forall other : string,
          other <> storyId ->
          (In other (expandedStories (view s')) <->
           In other (expandedStories (view s))))
    /\ (NoDup (expandedStories (view s)) -> NoDup (expandedStories (view s')))
    /\ (~ In storyId (expandedStories (view s)) ->
        expandedStories (view (after (toggleStoryExpansion storyId) s')) =
        expandedStories (view s))
    /\ userStories (view s') = userStories (view s)
    /\ world s' = world s.
Proof.
  intros storyId s s'.
  assert (Hs' : expandedStories (view s') =
                if existsb (fun id => id =? storyId) (expandedStories (view s))
                then filter (fun id => negb (id =? storyId))
                            (expandedStories (view s))
                else expandedStories (view s) ++ [storyId]) by reflexivity.
  destruct (existsb (fun id => id =? storyId) (expandedStories (view s)))
    eqn:E.
  - assert (Hin : In storyId (expandedStories (view s)))
      by (now apply existsb_eqb_In).
    split; [|split; [|split; [|split; [|split]]]]; try reflexivity.
    + rewrite Hs', filter_other_In; tauto.
    + intros other Hne; rewrite Hs', filter_other_In; tauto.
    + intros Hnd; rewrite Hs'; now apply NoDup_filter.
    + intros Hout; contradiction.
  - assert (Hout : ~ In storyId (expandedStories (view s))).
    { intros Hin; apply existsb_eqb_In in Hin; congruence. }
    split; [|split; [|split; [|split; [|split]]]]; try reflexivity.
    + rewrite Hs', in_app_iff; simpl; tauto.
    + intros other Hne; rewrite Hs', in_app_iff; simpl.
      split; [intros [H|[H|[]]]; [exact H|congruence]|tauto].
    + intros Hnd; rewrite Hs'.
      rewrite <- (rev_involutive (_ ++ _)); apply NoDup_rev.
      rewrite rev_app_distr; simpl; constructor;
        [now rewrite <- in_rev|now apply NoDup_rev].
    + intros _.
      change (expandedStories (view (after (toggleStoryExpansion storyId) s')))
        with (if existsb (fun id => id =? storyId) (expandedStories (view s'))
              then filter (fun id => negb (id =? storyId))
                          (expandedStories (view s'))
              else expandedStories (view s') ++ [storyId]).
      rewrite Hs'.
      assert (Hnow : existsb (fun id => id =? storyId)
                       (expandedStories (view s) ++ [storyId]) = true)
        by (apply existsb_eqb_In, in_or_app; right; now left).
      rewrite Hnow, filter_app; simpl; rewrite String.eqb_refl; simpl.
      rewrite app_nil_r; apply forallb_filter_id, forallb_forall.
      intros x Hx; apply negb_true_iff, String.eqb_neq; congruence.
Qed.

Lemma stale_page (c : Component) :
  (2 <= currentPage c)%Z ->
  (List.length (filteredStories c) <= 10)%nat ->
  currentStories c = [] /\ pageButtons c = [].
Proof.
  intros Hp Hlen; split.
  - unfold currentStories, pageOf, indexOfFirstStory, indexOfLastStory,
      storiesPerPage.
    rewrite slice_skipn_firstn by lia.
    rewrite skipn_all2 by lia; apply firstn_nil.
  - unfold pageButtons, storiesPerPage.
    destruct (Z.ltb_spec 10 (Z.of_nat (List.length (filteredStories c))));
      [lia|reflexivity].
Qed.

(** X15. A successful [removeUserStory] also collapses the story: its id is
    no longer expanded, every other id is expanded exactly if it was; the
    filter and the page number are kept.  So when page 2 or later is shown
    and at most [storiesPerPage] filtered stories are left, the page shown
    is empty and there is no page button. *)
Theorem removeUserStory_collapses_and_keeps_the_page_number :
  forall (id : string) (s : Session) (w1 : World),
    deleteStory id (world s) = (Data tt, w1) ->
    let s' := after (removeUserStory id) s in
    ~ In id (expandedStories (view s'))
    /\ (forall other : string,
          other <> id ->
          (In other (expandedStories (view s')) <->
           In other (expandedStories (view s))))
    /\ filterNumber (view s') = filterNumber (view s)
    /\ currentPage (view s') = currentPage (view s)
    /\ ((2 <= currentPage (view s))%Z ->
        (List.length (filteredStories (view s')) <= 10)%nat ->
        currentStories (view s') = [] /\ pageButtons (view s') = []).
Proof.
  intros id s w1 Hdel s'.
  assert (Hs' : s' =
            after (setUserStories
                     (filter (fun story => negb (UserStory.id story =? id)))
                   ;;; setExpandedStories
                         (filter (fun storyId => negb (storyId =? id))))
                  (mkSession w1 (view s))).
  { unfold s', after, removeUserStory, bind at 1, await; now rewrite Hdel. }
  assert (He : expandedStories (view s') =
               filter (fun storyId => negb (storyId =? id))
                      (expandedStories (view s)))
    by (rewrite Hs'; reflexivity).
  assert (Hp : currentPage (view s') = currentPage (view s))
    by (rewrite Hs'; reflexivity).
  split; [|split; [|split; [|split]]].
  - rewrite He, filter_other_In; tauto.
  - intros other Hne; rewrite He, filter_other_In; tauto.
  - rewrite Hs'; reflexivity.
  - exact Hp.
  - intros Hpage Hlen; apply stale_page; [rewrite Hp; exact Hpage|exact Hlen].
Qed.

(** ** New stories *)

Lemma Blank_cons (c : ascii) (s : string) :
  Blank (String c s) <-> isWhiteSpace c = true /\ Blank s.
Proof.
  unfold Blank; simpl; split.
  - intros H; split; [apply H; now left|intros x Hx; apply H; now right].
  - intros [Hc Hs] x [<-|Hx]; auto.
Qed.

Lemma trimStart_empty_iff (s : string) : trimStart s = "" <-> Blank s.
Proof.
  induction s as [|c s IH]; simpl.
  - split; [intros _ x []|reflexivity].
  - rewrite Blank_cons; destruct (isWhiteSpace c).
    + rewrite IH; tauto.
    + split; [discriminate|intros [H _]; discriminate].
Qed.

Lemma trimStart_head (s : string) (c : ascii) (rest : string) :
  trimStart s = String c rest -> isWhiteSpace c = false.
Proof.
  induction s as [|x s IH]; simpl; [discriminate|].
  destruct (isWhiteSpace x) eqn:E; [exact IH|].
  intros H; inversion H; subst; exact E.
Qed.

Lemma trimEnd_head (c : ascii) (rest : string) :
  isWhiteSpace c = false -> trimEnd (String c rest) <> "".
Proof.
  intros Hc; simpl; destruct (trimEnd rest); [rewrite Hc|]; discriminate.
Qed.

(** [trim] leaves nothing exactly of the strings of white space. *)
Lemma trim_empty_iff (s : string) : trim s = "" <-> Blank s.
Proof.
  unfold trim; rewrite <- trimStart_empty_iff.
  destruct (trimStart s) as [|c rest] eqn:E; [tauto|].
  split; [|discriminate].
  intros H; exfalso; exact (trimEnd_head c rest (trimStart_head _ _ _ E) H).
Qed.

Lemma trim_eqb_Blank (s : string) : (trim s =? "") = true <-> Blank s.
Proof. now rewrite String.eqb_eq, trim_empty_iff. Qed.

(** X16. [addUserStory] does nothing at all when nobody is signed in.  For a
    signed-in user, a title or a number of white space only, or an empty
    date, is refused with a message: the answer of the store plays no part
    (no row is sent), the cache and the form are kept. *)
Theorem addUserStory_refuses_blank_fields :
  forall (insert : NewStory.t -> Response UserStory.t) (c : Component)
         (f : NewStoryForm),
    (currentUser c = None -> addUserStory insert c f = (c, f))
    /\ (currentUser c <> None ->
        Blank (newStoryTitle f) \/ newStoryDate f = ""
        \/ Blank (newStoryNumber f) ->
        addUserStory insert c f =
        (mkComponent (currentUser c) (userStories c) (expandedStories c)
           (filterNumber c) (currentPage c)
           "Please fill in all required fields for the new user story.", f)).
Proof.
  intros insert c f; unfold addUserStory; split.
  - intros ->; reflexivity.
  - destruct (currentUser c) as [u|]; [intros _|congruence].
    rewrite <- !trim_eqb_Blank, <- String.eqb_eq.
    intros H.
    assert (E : (trim (newStoryTitle f) =? "") || (newStoryDate f =? "")
                || (trim (newStoryNumber f) =? "") = true).
    { rewrite !orb_true_iff; tauto. }
    now rewrite E.
Qed.

(** X17. For a signed-in user and a form whose title and number are not
    blank and whose date is set, [addUserStory] sends a story with the
    user's id, the fields as typed (not trimmed) and no changes.  On success
    the returned row is appended to the cache and the form is emptied and
    collapsed; when the store keeps the story as sent, a cache holding only
    the user's stories still does.  On failure the message is set and the
    cache and the form are kept. *)
Theorem addUserStory_appends_the_stored_row :
  forall (insert : NewStory.t -> Response UserStory.t) (c : Component)
         (f : NewStoryForm) (user : User.t),
    currentUser c = Some user ->
    ~ Blank (newStoryTitle f) -> newStoryDate f <> "" ->
    ~ Blank (newStoryNumber f) ->
    let newStory :=
      NewStory.mk (User.id user) (newStoryNumber f) (newStoryTitle f)
                  (newStoryDescription f) (newStoryDate f) [] in
    (forall row : UserStory.t,
        insert newStory = Data row ->
        let c' := fst (addUserStory insert c f) in
        userStories c' = userStories c ++ [row]
        /\ snd (addUserStory insert c f) = mkNewStoryForm false "" "" "" ""
        /\ errorMessage c' = errorMessage c
        /\ SameSettings c' c
        /\ (Echoes insert ->
            UserStory.number row = newStoryNumber f
            /\ UserStory.changes row = []
            /\ ((forall story : UserStory.t,
                    In story (userStories c) ->
                    UserStory.userId story = User.id user) ->
                forall story : UserStory.t,
                  In story (userStories c') ->
                  UserStory.userId story = User.id user)))
    /\ (forall message : string,
          insert newStory = Error message ->
          addUserStory insert c f =
          (mkComponent (currentUser c) (userStories c) (expandedStories c)
             (filterNumber c) (currentPage c) "Error adding user story", f)).
Proof.
  intros insert c f user Hu Ht Hd Hn newStory.
  assert (E : (trim (newStoryTitle f) =? "") || (newStoryDate f =? "")
              || (trim (newStoryNumber f) =? "") = false).
  { rewrite !orb_false_iff; repeat split.
    - destruct (trim (newStoryTitle f) =? "") eqn:B; [|reflexivity].
      apply trim_eqb_Blank in B; contradiction.
    - now apply String.eqb_neq.
    - destruct (trim (newStoryNumber f) =? "") eqn:B; [|reflexivity].
      apply trim_eqb_Blank in B; contradiction. }
  unfold addUserStory; rewrite Hu, E; fold newStory; split.
  - intros row Hrow; rewrite Hrow; cbn [fst snd userStories errorMessage].
    split; [reflexivity|split; [reflexivity|split; [reflexivity|split]]].
    + unfold SameSettings; simpl; auto.
    + intros Hecho; destruct (Hecho newStory row Hrow)
        as [Hid [Hnum [_ [_ [_ Hch]]]]].
      split; [exact Hnum|split; [exact Hch|]].
      intros Hall story Hin; apply in_app_iff in Hin.
      destruct Hin as [Hin|[<-|[]]]; [now apply Hall|exact Hid].
  - intros message Herr; now rewrite Herr.
Qed.

(** ** The highlighter language *)

Lemma toLowerCaseUnit_idem (c : ascii) :
  toLowerCaseUnit (toLowerCaseUnit c) = toLowerCaseUnit c.
Proof. destruct c as [[] [] [] [] [] [] [] []]; reflexivity. Qed.

Lemma toLowerCase_idem (s : string) : toLowerCase (toLowerCase s) = toLowerCase s.
Proof.
  induction s as [|c s IH]; simpl; [reflexivity|].
  now rewrite toLowerCaseUnit_idem, IH.
Qed.

(** A code unit is lowered to one of these letters exactly if it is the
    letter or its capital. *)
Lemma toLowerCaseUnit_letter (w c : ascii) :
  fileTypeLetter w ->
  (toLowerCaseUnit c = w <->
   c = w \/ (nat_of_ascii c + 32 = nat_of_ascii w)%nat).
Proof.
  unfold fileTypeLetter; simpl.
  intros [<-|[<-|[<-|[<-|[<-|[<-|[<-|[<-|[]]]]]]]]];
    destruct c as [[] [] [] [] [] [] [] []]; vm_compute;
    (split; intros H;
     [first [discriminate H | left; reflexivity | right; reflexivity]
     |destruct H as [H|H]; first [discriminate H | reflexivity]]).
Qed.

Lemma toLowerCase_Spells (word s : string) :
  (forall w : ascii, In w (list_ascii_of_string word) -> fileTypeLetter w) ->
  (toLowerCase s = word <-> Spells word s).
Proof.
  revert s; induction word as [|w word IH]; intros s Hletters.
  - destruct s; simpl; split; intros H; try discriminate; tauto.
  - destruct s as [|c s]; simpl; [split; [discriminate|tauto]|].
    rewrite <- (IH s) by (intros x Hx; apply Hletters; now right).
    rewrite <- (toLowerCaseUnit_letter w c)
      by (apply Hletters; now left).
    split; [intros H; inversion H; auto|intros [-> ->]; reflexivity].
Qed.

Ltac file_type_letters :=
  let x := fresh "x" in
  let Hx := fresh "Hx" in
  intros x Hx; simpl in Hx; unfold fileTypeLetter; simpl;
  repeat (destruct Hx as [Hx|Hx]; [subst x; tauto|]); contradiction.

(** X18. [getLanguage] reads the file type without regard to case and always
    answers one of the four highlighter languages.  It answers [html],
    [css] or [xml] exactly for the file types that spell that word in upper
    or lower case letters, and [javascript] for every spelling of [js] and
    for everything else, an unknown or empty file type included. *)
Theorem getLanguage_ignores_case_and_falls_back_to_javascript :
  forall fileType : string,
    In (getLanguage fileType) ["html"; "javascript"; "css"; "xml"]
    /\ getLanguage (toLowerCase fileType) = getLanguage fileType
    /\ (getLanguage fileType = "javascript" <->
        toLowerCase fileType <> "html" /\ toLowerCase fileType <> "css"
        /\ toLowerCase fileType <> "xml")
    /\ (forall other : string,
          toLowerCase other = toLowerCase fileType ->
          getLanguage other = getLanguage fileType)
    /\ (getLanguage fileType = "html" <-> Spells "html" fileType)
    /\ (getLanguage fileType = "css" <-> Spells "css" fileType)
    /\ (getLanguage fileType = "xml" <-> Spells "xml" fileType)
    /\ (Spells "js" fileType -> getLanguage fileType = "javascript")
    /\ (getLanguage fileType = "javascript" <->
        ~ Spells "html" fileType /\ ~ Spells "css" fileType
        /\ ~ Spells "xml" fileType).
Proof.
  intros fileType.
  assert (Hhtml : toLowerCase fileType = "html" <-> Spells "html" fileType)
    by (apply toLowerCase_Spells; file_type_letters).
  assert (Hcss : toLowerCase fileType = "css" <-> Spells "css" fileType)
    by (apply toLowerCase_Spells; file_type_letters).
  assert (Hxml : toLowerCase fileType = "xml" <-> Spells "xml" fileType)
    by (apply toLowerCase_Spells; file_type_letters).
  assert (Hjs : toLowerCase fileType = "js" <-> Spells "js" fileType)
    by (apply toLowerCase_Spells; file_type_letters).
  assert (Hcases :
            (getLanguage fileType = "html" <-> toLowerCase fileType = "html")
            /\ (getLanguage fileType = "css" <-> toLowerCase fileType = "css")
            /\ (getLanguage fileType = "xml" <-> toLowerCase fileType = "xml")
            /\ (toLowerCase fileType = "js" ->
                getLanguage fileType = "javascript")).
  { unfold getLanguage.
    destruct (String.eqb_spec (toLowerCase fileType) "html") as [->|H1];
      [repeat split; intros; try discriminate; reflexivity|].
    destruct (String.eqb_spec (toLowerCase fileType) "js") as [->|H2];
      [repeat split; intros; try discriminate; reflexivity|].
    destruct (String.eqb_spec (toLowerCase fileType) "css") as [->|H3];
      [repeat split; intros; try discriminate; reflexivity|].
    destruct (String.eqb_spec (toLowerCase fileType) "xml") as [->|H4];
      [repeat split; intros; try discriminate; reflexivity|].
    repeat split; intros; try discriminate; congruence. }
  destruct Hcases as [Ch [Cc [Cx Cj]]].
  assert (Hfirst : getLanguage fileType = "javascript" <->
                   toLowerCase fileType <> "html"
                   /\ toLowerCase fileType <> "css"
                   /\ toLowerCase fileType <> "xml").
  { unfold getLanguage.
    destruct (String.eqb_spec (toLowerCase fileType) "html") as [->|H1];
      [split; [discriminate|intros [H _]; congruence]|].
    destruct (String.eqb_spec (toLowerCase fileType) "js") as [->|H2];
      [split; [intros _; repeat split; discriminate|reflexivity]|].
    destruct (String.eqb_spec (toLowerCase fileType) "css") as [->|H3];
      [split; [discriminate|intros [_ [H _]]; congruence]|].
    destruct (String.eqb_spec (toLowerCase fileType) "xml") as [->|H4];
      [split; [discriminate|intros [_ [_ H]]; congruence]|].
    split; [intros _; auto|reflexivity]. }
  split; [|split; [|split; [exact Hfirst|split; [|split; [|split; [|split;
    [|split]]]]]]].
  8: { rewrite Hfirst, Hhtml, Hcss, Hxml; reflexivity. }
  7: { intros Hs; apply Cj, Hjs, Hs. }
  6: { rewrite Cx; exact Hxml. }
  5: { rewrite Cc; exact Hcss. }
  4: { rewrite Ch; exact Hhtml. }
  - unfold getLanguage.
    repeat match goal with
           | |- context [if ?b then _ else _] => destruct b
           end; simpl; auto 10.
  - unfold getLanguage; now rewrite toLowerCase_idem.
  - intros other H; unfold getLanguage; now rewrite H.
Qed.

(** Upper-case file types, as [getLanguage] reads them. *)
Example getLanguage_upper_case :
  getLanguage "HTML" = "html" /\ getLanguage "Css" = "css"
  /\ getLanguage "XML" = "xml" /\ getLanguage "JS" = "javascript"
  /\ getLanguage "" = "javascript" /\ getLanguage "htm" = "javascript".
Proof. repeat split. Qed.

(** ** The requests of the two editors *)

Lemma selectChanges_log (id : string) (w : World) :
  log (snd (selectChanges id w)) = log w ++ [SelectChanges id].
Proof. rewrite selectChanges_world; apply transport_table. Qed.

Lemma updateChanges_log (id : string) (changes : list Change.t) (w : World) :
  log (snd (updateChanges id changes w)) = log w ++ [UpdateChanges id changes].
Proof.
  destruct (updateChanges id changes w) as [[u|m] w2] eqn:E; simpl.
  - now destruct (updateChanges_Data _ _ _ _ _ E) as [_ [_ H]].
  - now destruct (updateChanges_Error _ _ _ _ _ E) as [_ H].
Qed.

(** X19. [addChange] and [removeChange] send the read of the story first and
    at most one write after it, for the same story, and nothing else.  When
    the table does not hold exactly one row with the id (the story was
    deleted elsewhere, say), only the read is sent: the fetch error is
    shown, and the table and the cache are left as they are. *)
Theorem change_editors_read_before_they_write :
  forall (storyId changeId : string) (ty : ChangeType) (d : Details)
         (s : Session),
    (let s' := after (addChange storyId ty d) s in
     (log (world s') = log (world s) ++ [SelectChanges storyId]
      \/ exists changes : list Change.t,
           log (world s') =
           log (world s) ++
           [SelectChanges storyId; UpdateChanges storyId changes])
     /\ (List.length (filter (hasId storyId) (table (world s))) <> 1%nat ->
         log (world s') = log (world s) ++ [SelectChanges storyId]
         /\ errorMessage (view s') = "Error fetching user story"
         /\ table (world s') = table (world s)
         /\ userStories (view s') = userStories (view s)))
    /\ (let s' := after (removeChange storyId changeId) s in
        (log (world s') = log (world s) ++ [SelectChanges storyId]
         \/ exists changes : list Change.t,
              log (world s') =
              log (world s) ++
              [SelectChanges storyId; UpdateChanges storyId changes])
        /\ (List.length (filter (hasId storyId) (table (world s))) <> 1%nat ->
            log (world s') = log (world s) ++ [SelectChanges storyId]
            /\ errorMessage (view s') = "Error fetching user story"
            /\ table (world s') = table (world s)
            /\ userStories (view s') = userStories (view s))).
Proof.
  intros storyId changeId ty d s.
  pose proof (selectChanges_log storyId (world s)) as Hl1.
  pose proof (selectChanges_table storyId (world s)) as [Ht1 _].
  destruct (selectChanges storyId (world s)) as [[current|m] w1] eqn:Hsel;
    simpl in Hl1, Ht1.
  - destruct (selectChanges_Data _ _ _ _ Hsel) as [_ [story [Hrow _]]].
    split; cbv zeta.
    + pose proof (updateChanges_log storyId
                    (current ++ [Change.mk (toString (now w1)) ty d]) w1) as Hl2.
      destruct (updateChanges storyId
                  (current ++ [Change.mk (toString (now w1)) ty d]) w1)
        as [[[]|m] w2] eqn:Hupd; simpl in Hl2.
      * rewrite (addChange_done _ _ _ _ _ _ _ Hsel Hupd).
        split; [right; eexists|rewrite Hrow; simpl; congruence].
        unfold after, setUserStories; simpl.
        rewrite Hl2, Hl1, <- app_assoc; reflexivity.
      * rewrite (addChange_update_error _ _ _ _ _ _ _ _ Hsel Hupd).
        split; [right; eexists|rewrite Hrow; simpl; congruence].
        unfold after, setErrorMessage; simpl.
        rewrite Hl2, Hl1, <- app_assoc; reflexivity.
    + pose proof (updateChanges_log storyId
                    (filter (fun change => negb (Change.id change =? changeId))
                            current) w1) as Hl2.
      destruct (updateChanges storyId
                  (filter (fun change => negb (Change.id change =? changeId))
                          current) w1)
        as [[[]|m] w2] eqn:Hupd; simpl in Hl2.
      * rewrite (removeChange_done _ _ _ _ _ _ Hsel Hupd).
        split; [right; eexists|rewrite Hrow; simpl; congruence].
        unfold after, setUserStories; simpl.
        rewrite Hl2, Hl1, <- app_assoc; reflexivity.
      * rewrite (removeChange_update_error _ _ _ _ _ _ _ Hsel Hupd).
        split; [right; eexists|rewrite Hrow; simpl; congruence].
        unfold after, setErrorMessage; simpl.
        rewrite Hl2, Hl1, <- app_assoc; reflexivity.
  - split; cbv zeta.
    + rewrite (addChange_fetch_error _ _ _ _ _ _ Hsel).
      unfold after, setErrorMessage; simpl; auto.
    + rewrite (removeChange_fetch_error _ _ _ _ _ Hsel).
      unfold after, setErrorMessage; simpl; auto.
Qed.

(** * The further properties at work on the example sessions *)

Lemma laterSession_conforms :
  AllConform (table (world laterSession))
  /\ AllConform (userStories (view laterSession)).
Proof.
  split; intros story change [<-|[]] [<-|[]]; reflexivity.
Defined.

Lemma change_editors_keep_changes_conforming_witness :
  AllConform
    (table (world (after (ChangeForm.handleAddChange "s1" fooForm)
                         laterSession)))
  /\ AllConform
       (userStories (view (after (removeChange "s1" "1704153600000")
                                 laterSession))).
Proof.
  destruct (change_editors_keep_changes_conforming
              "s1" "1704153600000" fooForm laterSession
              (proj1 laterSession_conforms) (proj2 laterSession_conforms))
    as [[Hadd _] [_ Hremove]].
  split; [exact Hadd|exact Hremove].
Defined.

Lemma handleAddChange_clears_accepted_form_even_on_failure_witness :
  fst (ChangeForm.handleAddChange "s1" fooForm offlineSession) =
    ChangeForm.mk Field "" "" "" "" "" "" "" "" "" "" false false ""
  /\ userStories
       (view (after (ChangeForm.handleAddChange "s1" fooForm) offlineSession)) =
     [collidingStory].
Proof.
  destruct (handleAddChange_clears_accepted_form_even_on_failure
              "s1" fooForm offlineSession fooDraft eq_refl)
    as [_ [_ [_ [Hfail [Hform _]]]]].
  split; [exact Hform|].
  exact (proj1 (proj2 (Hfail "Failed to fetch"
                         (snd (selectChanges "s1" (world offlineSession)))
                         eq_refl))).
Defined.

Lemma removeChange_twice_is_once_witness :
  let s1 := after (removeChange "s1" "1704153600000") laterSession in
  let s2 := after (removeChange "s1" "1704153600000") s1 in
  table (world s2) = table (world s1)
  /\ userStories (view s2) = userStories (view s1).
Proof.
  destruct (removeChange_twice_is_once
              "s1" "1704153600000" laterSession collidingStory
              (Reliable_no_faults (world laterSession) eq_refl) eq_refl)
    as [Htable [Hcache _]].
  split; [exact Htable|exact Hcache].
Defined.

Lemma twoChangeStory_ids_distinct :
  NoDup (changeIds (UserStory.changes twoChangeStory)).
Proof.
  repeat constructor; simpl; [intros [H|[]]; discriminate H|intros []].
Defined.

Lemma removeChange_unique_id_removes_one_entry_witness :
  exists before behind : list Change.t,
    UserStory.changes twoChangeStory = before ++ earlierChange :: behind
    /\ exists row : UserStory.t,
         filter (hasId "s1")
           (table (world (after (removeChange "s1" "1704153600000")
                                twoChangeSession))) = [row]
         /\ UserStory.changes row = before ++ behind
         /\ S (List.length (UserStory.changes row)) = 2%nat
         /\ NoDup (changeIds (UserStory.changes row))
         /\ ~ In earlierChange (UserStory.changes row).
Proof.
  destruct (removeChange_unique_id_removes_one_entry
              "s1" twoChangeSession twoChangeStory earlierChange
              (Reliable_no_faults (world twoChangeSession) eq_refl) eq_refl
              twoChangeStory_ids_distinct (or_introl eq_refl))
    as [before [behind [Hsplit [_ [_ [_ [Hrow _]]]]]]].
  exists before, behind; split; [exact Hsplit|exact Hrow].
Defined.

Lemma addChange_keeps_ids_unique_witness :
  exists row : UserStory.t,
    filter (hasId "s1")
      (table (world (after (addChange "s1" Field fooDraft) laterSession))) =
    [row]
    /\ changeIds (UserStory.changes row) = ["1704153600000"; "1704240000000"]
    /\ NoDup (changeIds (UserStory.changes row)).
Proof.
  apply (addChange_keeps_ids_unique
           "s1" Field fooDraft laterSession collidingStory
           (Reliable_no_faults (world laterSession) eq_refl) eq_refl).
  - repeat constructor; intros [].
  - intros [H|[]]; vm_compute in H; discriminate H.
Defined.

Lemma pages_partition_the_list_witness :
  List.concat (map (pageOf threeStories 2) [1%Z; 2%Z]) = threeStories.
Proof.
  exact (pages_partition_the_list threeStories 2 ltac:(lia)).
Defined.

Lemma page_sizes_witness :
  Z.of_nat (List.length (pageOf threeStories 2 1)) = 2%Z
  /\ (1 <= Z.of_nat (List.length (pageOf threeStories 2 2)) <= 2)%Z.
Proof.
  destruct (page_sizes threeStories 2 1 ltac:(lia)) as [Hfull _].
  destruct (page_sizes threeStories 2 2 ltac:(lia)) as [_ [Hlast _]].
  split; [apply Hfull; vm_compute; split; [discriminate|reflexivity]|].
  apply Hlast; [lia|reflexivity].
Defined.

Lemma narrowed_filter_leaves_an_empty_page_without_buttons_witness :
  let s' := after (setFilterNumber "US-2") crowdedSession in
  filteredStories (view s') = [bobStory]
  /\ currentStories (view s') = []
  /\ pageButtons (view s') = [].
Proof.
  destruct (narrowed_filter_leaves_an_empty_page_without_buttons
              crowdedSession "US-2" ltac:(simpl; lia) ltac:(simpl; lia))
    as [_ [Hf [Hpage Hbuttons]]].
  split; [exact Hf|split; [exact Hpage|exact Hbuttons]].
Defined.

Lemma removeUserStory_collapses_and_keeps_the_page_number_witness :
  let s' := after (removeUserStory "s2") crowdedSession in
  List.length (filteredStories (view s')) = 10%nat
  /\ currentStories (view s') = []
  /\ pageButtons (view s') = [].
Proof.
  destruct (removeUserStory_collapses_and_keeps_the_page_number
              "s2" crowdedSession
              (snd (deleteStory "s2" (world crowdedSession))) eq_refl)
    as [_ [_ [_ [_ Hstale]]]].
  split; [reflexivity|].
  apply Hstale; [simpl; lia|simpl; lia].
Defined.

Lemma paddedForm_not_blank :
  ~ Blank (newStoryTitle paddedForm) /\ ~ Blank (newStoryNumber paddedForm).
Proof.
  split; intros H.
  - specialize (H "A"%char (or_introl eq_refl)); discriminate H.
  - specialize (H "U"%char (or_intror (or_introl eq_refl))); discriminate H.
Defined.

Lemma addUserStory_appends_the_stored_row_witness :
  let c' := fst (addUserStory numberingStore (view aliceSession) paddedForm) in
  map UserStory.number (userStories c') = ["US-1"; " US-7 "]
  /\ addUserStory failingStore (view aliceSession) paddedForm =
     (mkComponent (Some alice) [aliceStory] [] "" 1 "Error adding user story",
      paddedForm).
Proof.
  destruct (addUserStory_appends_the_stored_row
              numberingStore (view aliceSession) paddedForm alice eq_refl
              (proj1 paddedForm_not_blank) ltac:(discriminate)
              (proj2 paddedForm_not_blank)) as [Hdone _].
  destruct (addUserStory_appends_the_stored_row
              failingStore (view aliceSession) paddedForm alice eq_refl
              (proj1 paddedForm_not_blank) ltac:(discriminate)
              (proj2 paddedForm_not_blank)) as [_ Hfail].
  split.
  - exact (f_equal (map UserStory.number) (proj1 (Hdone _ eq_refl))).
  - exact (Hfail "Failed to fetch" eq_refl).
Defined.

Example addUserStory_refuses_blankTitleForm :
  addUserStory numberingStore (view aliceSession) blankTitleForm =
  (mkComponent (Some alice) [aliceStory] [] "" 1
     "Please fill in all required fields for the new user story.",
   blankTitleForm).
Proof. reflexivity. Qed.
